(** * A trie-based HTTP router: embedding of [router.go] and its properties

    The router keeps one trie per (lower-cased) HTTP method.  Every node of a
    trie has a map from path segments to children and three optional slots:
    the exact route, the default route and the error handler.  Registration
    ([Handle], [SetDefault], [SetErrorHandler]) walks the trie along the
    non-empty segments of a URL, creating nodes on the way, and fills one
    slot of the last node; [findRoute] walks it along the segments of a
    request and picks the route, the error handler and the wildcard
    arguments; [ServeHTTP] calls what [findRoute] picked. *)

From Stdlib Require Import Ascii.
From stdpp Require Import gmap strings list fin_maps.

Set Warnings "-register-all".
Set Default Proof Using "Type*".

Local Open Scope string_scope.
Local Open Scope list_scope.

(** ** What the program takes from the Go libraries

    [strings.ToLower], [http.NotFound], [http.Error] and the types
    [http.ResponseWriter], [*http.Request] and [error] belong to Go's
    standard library.  They are an interface of the development: nothing is
    assumed about them.  [World] is the state a handler can change (the
    response writer and whatever else it touches). *)
Class GoLib := {
  World : Type;
  Request : Type;
  error : Type;
  ToLower : string → string;
  Method : Request → string;
  URL_Path : Request → string;
  NotFound : World → Request → World;
  Error : World → string → nat → World;
}.

Definition StatusInternalServerError : nat := 500.

(** [strings.Split(s, "/")]: the pieces of [s] between the slashes.  A string
    with [n] slashes has [n + 1] pieces, some of which may be empty. *)
Fixpoint Split (s : string) : list string :=
  match s with
  | EmptyString => [""]
  | String c rest =>
      if decide (c = "/"%char) then "" :: Split rest
      else match Split rest with
           | piece :: pieces => String c piece :: pieces
           | [] => [String c ""]
           end
  end.

(** A Go [panic] ends the call without a result. *)
Inductive outcome (A : Type) : Type :=
  | Done (a : A)
  | Panic (msg : string).
Arguments Done {A} a.
Arguments Panic {A} msg.

(** [if slot != nil { cur = slot }] *)
Definition inherit {A : Type} (slot : option A) (cur : A) : A :=
  match slot with
  | Some h => h
  | None => cur
  end.

Section router.
Context `{GoLib}.

(** [type Route func(w http.ResponseWriter, r *http.Request, args []string) error].
    A value of this type is a handler that can be called; a Go value of
    type [Route], which may be [nil], is an [option Route], with [None] for
    [nil]: so are the slots of a node and the handler a registration is
    given.  The returned [error] is [None] for Go's [nil]. *)
Definition Route : Type := World → Request → list string → option error * World.

(** [type ErrorHandler func(w http.ResponseWriter, r *http.Request, er error)] *)
Definition ErrorHandler : Type := World → Request → error → World.

Definition nullRoute : Route :=
  fun w r _ => (None, NotFound w r).

Definition nullErrorHandler : ErrorHandler :=
  fun w _ _ => Error w "Internal Server Error" StatusInternalServerError.

(** Node in the Router's trie. *)
Inductive subrouter : Type := Subrouter {
  children : gmap string subrouter;
  route : option Route;
  defaultRoute : option Route;
  errorHandler : option ErrorHandler;
}.

Definition newSubrouter : subrouter :=
  {| children := ∅; route := None; defaultRoute := None; errorHandler := None |}.

Record Router : Type := mkRouter {
  Router_children : gmap string subrouter;
}.

Definition NewRouter : Router := {| Router_children := ∅ |}.

(** *** Registration *)

(** The loop of [insertSubrouter].  The Go function returns a pointer to
    the node it ends on, and each of its callers reads one slot of that
    node and then writes it.  Here the trie is a value, so what the caller
    does through the pointer is the argument [use]: it is given the node
    the loop ends on and answers with that node as the caller leaves it,
    or panics.  Every node on the way is put back under its key, which is
    what [sr.children[pathPart] = tmp] and the writes through the shared
    pointer amount to. *)
Fixpoint insertLoop (sr : subrouter) (pathParts : list string)
    (use : subrouter → outcome subrouter) : outcome subrouter :=
  match pathParts with
  | [] => use sr
  | pathPart :: rest =>
      if decide (pathPart = "") then insertLoop sr rest use
      else
        let tmp := default newSubrouter (children sr !! pathPart) in
        match insertLoop tmp rest use with
        | Done tmp' =>
            Done {| children := <[pathPart := tmp']> (children sr);
                    route := route sr;
                    defaultRoute := defaultRoute sr;
                    errorHandler := errorHandler sr |}
        | Panic msg => Panic msg
        end
  end.

(** Helper function to insert a subrouter entry into the Router's trie. *)
Definition insertSubrouter (r : Router) (method url : string)
    (use : subrouter → outcome subrouter) : outcome Router :=
  let pathParts := Split url in
  let method := ToLower method in
  let sr := default newSubrouter (Router_children r !! method) in
  match insertLoop sr pathParts use with
  | Done sr' => Done {| Router_children := <[method := sr']> (Router_children r) |}
  | Panic msg => Panic msg
  end.

Definition setRoute (method url : string) (rt : option Route) (sr : subrouter)
    : outcome subrouter :=
  match route sr with
  | Some _ => Panic ("router: already exists a route for " +:+ method +:+ " " +:+ url)
  | None =>
      Done {| children := children sr; route := rt;
              defaultRoute := defaultRoute sr; errorHandler := errorHandler sr |}
  end.

Definition setDefaultRoute (method url : string) (rt : option Route) (sr : subrouter)
    : outcome subrouter :=
  match defaultRoute sr with
  | Some _ => Panic ("router: already exists a default route for " +:+ method +:+ " " +:+ url)
  | None =>
      Done {| children := children sr; route := route sr;
              defaultRoute := rt; errorHandler := errorHandler sr |}
  end.

Definition setErrorHandler (method url : string) (rt : option ErrorHandler) (sr : subrouter)
    : outcome subrouter :=
  match errorHandler sr with
  | Some _ => Panic ("router: already exists an error handler for " +:+ method +:+ " " +:+ url)
  | None =>
      Done {| children := children sr; route := route sr;
              defaultRoute := defaultRoute sr; errorHandler := rt |}
  end.

(** Handle registers a new Route for the (method, url) pair and panics if
    there is one already.  Given [nil], it writes [nil] to a slot that holds
    [nil]: the slot stays as it was. *)
Definition Handle (r : Router) (method url : string) (rt : option Route) : outcome Router :=
  insertSubrouter r method url (setRoute method url rt).

Definition SetDefault (r : Router) (method url : string) (rt : option Route)
    : outcome Router :=
  insertSubrouter r method url (setDefaultRoute method url rt).

Definition SetErrorHandler (r : Router) (method url : string) (rt : option ErrorHandler)
    : outcome Router :=
  insertSubrouter r method url (setErrorHandler method url rt).

(** *** Matching *)

(** The [for] loop of [findRoute] followed by the statements after it.  The
    [return] inside the loop is the branch that makes no recursive call. *)
Fixpoint findLoop (sr : subrouter) (pathParts : list string)
    (rt : Route) (erh : ErrorHandler) (args : list string)
    : Route * ErrorHandler * list string :=
  match pathParts with
  | [] => (inherit (route sr) rt, erh, args)
  | pathPart :: rest =>
      let rt := inherit (defaultRoute sr) rt in
      let erh := inherit (errorHandler sr) erh in
      if decide (pathPart = "") then findLoop sr rest rt erh args
      else
        match children sr !! pathPart with
        | Some tmp => findLoop tmp rest rt erh args
        | None =>
            match children sr !! "*" with
            | Some tmp => findLoop tmp rest rt erh (args ++ [pathPart])
            | None => (rt, erh, args)
            end
        end
  end.

(** Helper function that walks the Router's trie, gathering wildcard
    arguments and returning them with the best-matching Route and
    ErrorHandler. *)
Definition findRoute (r : Router) (method : string) (pathParts : list string)
    : Route * ErrorHandler * list string :=
  let method := ToLower method in
  match Router_children r !! method with
  | None => (nullRoute, nullErrorHandler, [])
  | Some sr =>
      let rt := inherit (defaultRoute sr) nullRoute in
      let erh := inherit (errorHandler sr) nullErrorHandler in
      findLoop sr pathParts rt erh []
  end.

(** *** Dispatch *)

(** The calls [ServeHTTP] makes are recorded, in order, next to the world
    they act on. *)
Inductive call : Type :=
  | RouteCall (rt : Route) (r : Request) (args : list string)
  | ErrorHandlerCall (erh : ErrorHandler) (r : Request) (er : error).

Definition serving (A : Type) : Type := World * list call → A * (World * list call).

Definition callRoute (rt : Route) (r : Request) (args : list string) : serving (option error) :=
  fun '(w, log) =>
    let '(er, w') := rt w r args in
    (er, (w', log ++ [RouteCall rt r args])).

Definition callErrorHandler (erh : ErrorHandler) (r : Request) (er : error) : serving unit :=
  fun '(w, log) => (tt, (erh w r er, log ++ [ErrorHandlerCall erh r er])).

#[local] Instance serving_ret : MRet serving := fun A a s => (a, s).
#[local] Instance serving_bind : MBind serving :=
  fun A B f m s => let '(a, s') := m s in f a s'.

(** ServeHTTP fetches the best matching route, invokes it, then calls the
    best-matching error handler if the route returned an error. *)
Definition ServeHTTP (r : Router) (req : Request) : serving unit :=
  let pathParts := Split (URL_Path req) in
  let '(rt, erh, args) := findRoute r (Method req) pathParts in
  er ← callRoute rt req args;
  match er with
  | Some er => callErrorHandler erh req er
  | None => mret tt
  end.

(** ** Notions the properties are stated with *)

(** The segments of a path that are not empty: the ones both loops act on. *)
Definition segments (pathParts : list string) : list string :=
  filter (λ pathPart, pathPart ≠ "") pathParts.

(** The node found under [sr] by following [keys] as keys of [children]. *)
Fixpoint nodeAt (sr : subrouter) (keys : list string) : option subrouter :=
  match keys with
  | [] => Some sr
  | key :: keys =>
      match children sr !! key with
      | Some child => nodeAt child keys
      | None => None
      end
  end.

(** The node a registration at [(method, url)] ends on, if it is there. *)
Definition subrouterAt (r : Router) (method url : string) : option subrouter :=
  match Router_children r !! ToLower method with
  | Some sr => nodeAt sr (segments (Split url))
  | None => None
  end.

Definition routeAt (r : Router) (method url : string) : option Route :=
  match subrouterAt r method url with Some sr => route sr | None => None end.

Definition defaultRouteAt (r : Router) (method url : string) : option Route :=
  match subrouterAt r method url with Some sr => defaultRoute sr | None => None end.

Definition errorHandlerAt (r : Router) (method url : string) : option ErrorHandler :=
  match subrouterAt r method url with Some sr => errorHandler sr | None => None end.

(** The node the loop of [insertSubrouter] ends on: the one at [keys], or
    a new one when the trie has none there yet. *)
Definition terminal (sr : subrouter) (keys : list string) : subrouter :=
  default newSubrouter (nodeAt sr keys).

Definition terminalAt (r : Router) (method url : string) : subrouter :=
  terminal (default newSubrouter (Router_children r !! ToLower method))
    (segments (Split url)).

(** The node [sr] with [c] for its children. *)
Definition withChildren (c : gmap string subrouter) (sr : subrouter) : subrouter :=
  {| children := c; route := route sr;
     defaultRoute := defaultRoute sr; errorHandler := errorHandler sr |}.

(** Every slot that is set in [n] holds the same handler in [n']. *)
Definition slotsKept (n n' : subrouter) : Prop :=
  (∀ rt, route n = Some rt → route n' = Some rt) ∧
  (∀ rt, defaultRoute n = Some rt → defaultRoute n' = Some rt) ∧
  (∀ erh, errorHandler n = Some erh → errorHandler n' = Some erh).

(** Every node of [sr] is a node of [sr'], at the same keys and with the
    slots it had. *)
Definition trieKept (sr sr' : subrouter) : Prop :=
  ∀ keys n, nodeAt sr keys = Some n →
    ∃ n', nodeAt sr' keys = Some n' ∧ slotsKept n n'.

Definition routerKept (r r' : Router) : Prop :=
  ∀ method sr, Router_children r !! method = Some sr →
    ∃ sr', Router_children r' !! method = Some sr' ∧ trieKept sr sr'.

(** What the three callers of [insertSubrouter] do with the node: they
    leave its children alone and keep the slots that are set. *)
Definition fills (use : subrouter → outcome subrouter) : Prop :=
  ∀ n n', use n = Done n' → children n' = children n ∧ slotsKept n n'.

(** A call of one of the three registration functions. *)
Inductive registration : Type :=
  | DoHandle (method url : string) (rt : option Route)
  | DoSetDefault (method url : string) (rt : option Route)
  | DoSetErrorHandler (method url : string) (rt : option ErrorHandler).

(** The registration is given a handler, not [nil]. *)
Definition givesHandler (reg : registration) : Prop :=
  match reg with
  | DoHandle _ _ rt | DoSetDefault _ _ rt => is_Some rt
  | DoSetErrorHandler _ _ erh => is_Some erh
  end.

Definition register (r : Router) (reg : registration) : outcome Router :=
  match reg with
  | DoHandle method url rt => Handle r method url rt
  | DoSetDefault method url rt => SetDefault r method url rt
  | DoSetErrorHandler method url rt => SetErrorHandler r method url rt
  end.

(** The calls of [regs] one after the other; the first panic ends the run. *)
Fixpoint registerAll (r : Router) (regs : list registration) : outcome Router :=
  match regs with
  | [] => Done r
  | reg :: regs =>
      match register r reg with
      | Done r' => registerAll r' regs
      | Panic msg => Panic msg
      end
  end.

(** The variables of the loop of [findRoute]. *)
Record walk : Type := Walk {
  walk_sr : subrouter;
  walk_rt : Route;
  walk_erh : ErrorHandler;
  walk_args : list string;
}.

(** The variables of the loop after it went through [pathParts] without
    returning, and [None] if it returned on the way. *)
Fixpoint walkPrefix (sr : subrouter) (pathParts : list string)
    (rt : Route) (erh : ErrorHandler) (args : list string) : option walk :=
  match pathParts with
  | [] => Some (Walk sr rt erh args)
  | pathPart :: rest =>
      let rt := inherit (defaultRoute sr) rt in
      let erh := inherit (errorHandler sr) erh in
      if decide (pathPart = "") then walkPrefix sr rest rt erh args
      else
        match children sr !! pathPart with
        | Some tmp => walkPrefix tmp rest rt erh args
        | None =>
            match children sr !! "*" with
            | Some tmp => walkPrefix tmp rest rt erh (args ++ [pathPart])
            | None => None
            end
        end
  end.

(** The nodes the loop is at, from the root on, while it goes through
    [pathParts]; a node is listed once, when the loop gets to it. *)
Fixpoint trail (sr : subrouter) (pathParts : list string) : list subrouter :=
  match pathParts with
  | [] => [sr]
  | pathPart :: rest =>
      if decide (pathPart = "") then trail sr rest
      else
        match children sr !! pathPart with
        | Some tmp => sr :: trail tmp rest
        | None =>
            match children sr !! "*" with
            | Some tmp => sr :: trail tmp rest
            | None => [sr]
            end
        end
  end.

(** The last slot of [slots] that is set, and [builtin] if none is. *)
Definition lastSet {A : Type} (slots : list (option A)) (builtin : A) : A :=
  foldl (λ cur slot, inherit slot cur) builtin slots.

(** The segments of a request that puts [values], in order, at the
    wildcard segments of [pattern] and repeats its other segments. *)
Fixpoint substitute (pattern values : list string) : option (list string) :=
  match pattern with
  | [] => match values with [] => Some [] | _ :: _ => None end
  | pathPart :: pattern =>
      if decide (pathPart = "*") then
        match values with
        | value :: values => (value ::.) <$> substitute pattern values
        | [] => None
        end
      else (pathPart ::.) <$> substitute pattern values
  end.

(** No value meets a literal sibling: at every wildcard segment of
    [pattern], the node the walk is at has no child under the value put
    there. *)
Fixpoint clashFree (sr : subrouter) (pattern values : list string) : Prop :=
  match pattern with
  | [] => True
  | pathPart :: pattern =>
      if decide (pathPart = "") then clashFree sr pattern values
      else if decide (pathPart = "*") then
        match values with
        | value :: values =>
            children sr !! value = None ∧
            clashFree (default newSubrouter (children sr !! "*")) pattern values
        | [] => True
        end
      else clashFree (default newSubrouter (children sr !! pathPart)) pattern values
  end.

(** How many of the calls of a log are calls of a route, and of an error
    handler. *)
Definition isRouteCall (c : call) : bool :=
  match c with RouteCall _ _ _ => true | ErrorHandlerCall _ _ _ => false end.

Definition isErrorHandlerCall (c : call) : bool :=
  match c with RouteCall _ _ _ => false | ErrorHandlerCall _ _ _ => true end.

Definition routeCalls (log : list call) : nat :=
  length (List.filter isRouteCall log).

Definition errorHandlerCalls (log : list call) : nat :=
  length (List.filter isErrorHandlerCall log).

(** The calls [ServeHTTP] makes for [req], from the world [w]. *)
Definition callsOf (r : Router) (req : Request) (w : World) : list call :=
  snd (snd (ServeHTTP r req (w, []))).

(** The path ends with a slash. *)
Fixpoint trailingSlash (url : string) : bool :=
  match url with
  | EmptyString => false
  | String c EmptyString => bool_decide (c = "/"%char)
  | String _ rest => trailingSlash rest
  end.

Definition methodOf (reg : registration) : string :=
  match reg with
  | DoHandle method _ _ | DoSetDefault method _ _ | DoSetErrorHandler method _ _ => method
  end.

Definition urlOf (reg : registration) : string :=
  match reg with
  | DoHandle _ url _ | DoSetDefault _ url _ | DoSetErrorHandler _ url _ => url
  end.

(** What the registration does with the node [insertSubrouter] returns. *)
Definition useOf (reg : registration) : subrouter → outcome subrouter :=
  match reg with
  | DoHandle method url rt => setRoute method url rt
  | DoSetDefault method url rt => setDefaultRoute method url rt
  | DoSetErrorHandler method url rt => setErrorHandler method url rt
  end.

(** The registrations of [regs] seen from the trie of their method, when
    they all have the same one. *)
Fixpoint insertAll (sr : subrouter) (regs : list registration) : outcome subrouter :=
  match regs with
  | [] => Done sr
  | reg :: regs =>
      match insertLoop sr (Split (urlOf reg)) (useOf reg) with
      | Done sr' => insertAll sr' regs
      | Panic msg => Panic msg
      end
  end.

Definition clashFreeAt (r : Router) (method url : string) (values : list string) : Prop :=
  clashFree (default newSubrouter (Router_children r !! ToLower method)) (Split url) values.

(** ** Notions for the properties of the whole of a configuration *)

(** The three slots of a node. *)
Inductive slot : Type := RouteSlot | DefaultRouteSlot | ErrorHandlerSlot.

#[global] Instance slot_eq_dec : EqDecision slot.
Proof. solve_decision. Defined.

Definition isSet (n : subrouter) (k : slot) : bool :=
  match k with
  | RouteSlot => match route n with Some _ => true | None => false end
  | DefaultRouteSlot => match defaultRoute n with Some _ => true | None => false end
  | ErrorHandlerSlot => match errorHandler n with Some _ => true | None => false end
  end.

Definition slotOf (reg : registration) : slot :=
  match reg with
  | DoHandle _ _ _ => RouteSlot
  | DoSetDefault _ _ _ => DefaultRouteSlot
  | DoSetErrorHandler _ _ _ => ErrorHandlerSlot
  end.

(** The place of a node: the key of its method and the keys from the root
    of that method to the node. *)
Definition placeOf (reg : registration) : string * list string :=
  (ToLower (methodOf reg), segments (Split (urlOf reg))).

(** The node at a place, a node with no slot set when the router has none
    there. *)
Definition nodeOf (r : Router) (place : string * list string) : subrouter :=
  terminal (default newSubrouter (Router_children r !! fst place)) (snd place).

Definition sameSlots (n n' : subrouter) : Prop :=
  route n = route n' ∧ defaultRoute n = defaultRoute n' ∧
  errorHandler n = errorHandler n'.

(** The handler that the first registration of [regs] that gives one for
    a slot of a place gives to it. *)
Fixpoint registeredRoute (regs : list registration) (place : string * list string)
    : option Route :=
  match regs with
  | [] => None
  | DoHandle method url (Some rt) :: regs =>
      if decide (placeOf (DoHandle method url (Some rt)) = place) then Some rt
      else registeredRoute regs place
  | _ :: regs => registeredRoute regs place
  end.

Fixpoint registeredDefaultRoute (regs : list registration) (place : string * list string)
    : option Route :=
  match regs with
  | [] => None
  | DoSetDefault method url (Some rt) :: regs =>
      if decide (placeOf (DoSetDefault method url (Some rt)) = place) then Some rt
      else registeredDefaultRoute regs place
  | _ :: regs => registeredDefaultRoute regs place
  end.

Fixpoint registeredErrorHandler (regs : list registration) (place : string * list string)
    : option ErrorHandler :=
  match regs with
  | [] => None
  | DoSetErrorHandler method url (Some erh) :: regs =>
      if decide (placeOf (DoSetErrorHandler method url (Some erh)) = place) then Some erh
      else registeredErrorHandler regs place
  | _ :: regs => registeredErrorHandler regs place
  end.

(** The slot a registration is for, with its place. *)
Definition targetOf (reg : registration) : (string * list string) * slot :=
  (placeOf reg, slotOf reg).

#[global] Instance givesHandler_dec (reg : registration) : Decision (givesHandler reg).
Proof. destruct reg; simpl; apply _. Defined.

(** No registration of [regs] comes after one that gave a handler to the
    same slot of the same place. *)
Fixpoint noneAfterHandler (regs : list registration) : Prop :=
  match regs with
  | [] => True
  | reg :: regs =>
      (givesHandler reg → targetOf reg ∉ targetOf <$> regs) ∧ noneAfterHandler regs
  end.

(** The segments of a request without the empty ones, but for one at the
    end when the request ends with an empty one. *)
Definition trimmed (pathParts : list string) : list string :=
  segments pathParts ++ (if decide (last pathParts = Some "") then [""] else []).

End router.

(** ** A concrete instance, to run the definitions *)
Module Demo.

Definition lower (c : ascii) : ascii :=
  let n := nat_of_ascii c in
  if ((65 <=? n)%nat && (n <=? 90)%nat)%bool then ascii_of_nat (n + 32) else c.

Fixpoint lowerString (s : string) : string :=
  match s with
  | EmptyString => EmptyString
  | String c s => String (lower c) (lowerString s)
  end.

(** The world is the list of the lines written so far, a request is a
    method with a path, an error is its text. *)
#[global] Instance lib : GoLib := {|
  World := list string;
  Request := string * string;
  error := string;
  ToLower := lowerString;
  Method := fst;
  URL_Path := snd;
  NotFound := fun w _ => w ++ ["404 page not found"];
  Error := fun w msg _ => w ++ [msg];
|}.

(** A route that writes its name and its arguments, like [makeRoute] of
    the tests, and one that fails. *)
Definition makeRoute (name : string) : Route :=
  fun w _ args => (None, w ++ name :: args).

Definition failingRoute (name : string) : Route :=
  fun w _ _ => (Some name, w).

Definition makeErrorHandler (name : string) : ErrorHandler :=
  fun w _ er => w ++ [name; er].

(** Whether a call returned, and the router it returned. *)
Definition returned {A : Type} (o : outcome A) : bool :=
  match o with Done _ => true | Panic _ => false end.

Definition result (o : outcome Router) : Router :=
  match o with Done r => r | Panic _ => NewRouter end.

(** The router the registrations [regs] build from a new one. *)
Definition built (regs : list registration) : Router :=
  result (registerAll NewRouter regs).

Definition found {A : Type} (o : option A) : bool :=
  match o with Some _ => true | None => false end.

(** The routers of [TestDefaultRoutes] and [TestArgRoutes]. *)
Definition defaultRoutes : list registration :=
  [DoSetDefault "GET" "/" (Some (makeRoute "1")); DoSetDefault "GET" "/foo" (Some (makeRoute "2"));
   DoHandle "GET" "/bar" (Some (makeRoute "3")); DoHandle "GET" "/foo/bar" (Some (makeRoute "4"))].

Definition argRoutes : list registration :=
  [DoHandle "GET" "/" (Some (makeRoute "1")); DoHandle "GET" "/*" (Some (makeRoute "2"));
   DoHandle "GET" "/*/*" (Some (makeRoute "3")); DoHandle "GET" "/foo/*" (Some (makeRoute "4"));
   DoHandle "GET" "/*/foo" (Some (makeRoute "5")); DoSetDefault "GET" "/" (Some (makeRoute "6"))].

(** The router of [TestArgRoutes] built with the route of "/*" first. *)
Definition starFirst : Router :=
  result (Handle NewRouter "GET" "/*" (Some (makeRoute "2"))).

Definition starThenRest : Router :=
  result (registerAll starFirst
    [DoHandle "GET" "/" (Some (makeRoute "1")); DoHandle "GET" "/*/*" (Some (makeRoute "3"));
     DoHandle "GET" "/foo/*" (Some (makeRoute "4")); DoHandle "GET" "/*/foo" (Some (makeRoute "5"));
     DoSetDefault "GET" "/" (Some (makeRoute "6"))]).

(** The router of [TestDefaultRoutes] with more registered on top. *)
Definition withBaz : Router :=
  result (Handle (built defaultRoutes) "get" "/foo/baz" (Some (makeRoute "5"))).

Definition withBazDefault : Router :=
  result (registerAll withBaz [DoSetDefault "GET" "/foo/baz" (Some (makeRoute "6"))]).

Definition withWildcards : Router :=
  result (Handle (built defaultRoutes) "GET" "/*/foo/*" (Some (makeRoute "7"))).

Definition withWildcardsAndMore : Router :=
  result (registerAll withWildcards [DoHandle "GET" "/x/foo/y" (Some (makeRoute "8"))]).

Definition defaultRoot : subrouter :=
  default newSubrouter (Router_children (built defaultRoutes) !! ToLower "GET").

Definition deadEnd : walk :=
  default (Walk defaultRoot nullRoute nullErrorHandler [])
    (walkPrefix defaultRoot [""; "foo"]
       (inherit (defaultRoute defaultRoot) nullRoute)
       (inherit (errorHandler defaultRoot) nullErrorHandler) []).



Definition fooDefault : Router :=
  result (SetDefault NewRouter "GET" "/foo" (Some (makeRoute "1"))).

Definition fooDefaultAndRoute : Router :=
  result (registerAll fooDefault [DoHandle "GET" "/foo" (Some (makeRoute "2"))]).

(** Routers and nodes for the properties of configurations. *)
Definition withPost : Router :=
  result (registerAll (built defaultRoutes) [DoHandle "POST" "/foo" (Some (makeRoute "7"))]).

Definition bazAdded : Router :=
  result (register (built defaultRoutes) (DoHandle "get" "/foo/baz" (Some (makeRoute "5")))).

Definition fooNode : subrouter :=
  default newSubrouter (subrouterAt withBaz "GET" "/foo").

Definition argRoot : subrouter :=
  default newSubrouter (Router_children (built argRoutes) !! ToLower "GET").

Definition argWalk : walk :=
  default (Walk argRoot nullRoute nullErrorHandler [])
    (walkPrefix argRoot (Split "/bar/foo")
       (inherit (defaultRoute argRoot) nullRoute)
       (inherit (errorHandler argRoot) nullErrorHandler) []).

Definition failing : list registration :=
  [DoHandle "GET" "/fail" (Some (failingRoute "boom"))].

Definition fooErrors : Router :=
  result (SetErrorHandler (built defaultRoutes) "GET" "/foo" (Some (makeErrorHandler "E"))).

Definition fooErrorsAndMore : Router :=
  result (registerAll fooErrors [DoHandle "GET" "/foo/*" (Some (makeRoute "8"))]).

Definition fooDefaultAndBar : Router :=
  result (registerAll fooDefault [DoHandle "GET" "/foo/bar" (Some (makeRoute "2"))]).

Definition barDefault : Router :=
  result (SetDefault (built defaultRoutes) "GET" "/bar" (Some (makeRoute "9"))).



(** A route for "/foo", then one for "/*". *)
Definition fooFirst : Router :=
  result (Handle NewRouter "GET" "/foo" (Some (makeRoute "1"))).

Definition starAfterFoo : Router :=
  result (Handle fooFirst "GET" "/*" (Some (makeRoute "2"))).

Definition starAfterFooRoot : subrouter :=
  default newSubrouter (Router_children starAfterFoo !! "get").

End Demo.

(** * Properties *)

Section properties.
Context `{GoLib}.

Implicit Types (sr tmp : subrouter) (r : Router) (rt : Route) (erh : ErrorHandler).
Implicit Types (ort : option Route) (oerh : option ErrorHandler).
Implicit Types (args pathParts keys : list string) (pathPart method url : string).

(** ** The loop of [findRoute], one iteration at a time *)

Lemma findLoop_skip sr rest rt erh args :
  findLoop sr ("" :: rest) rt erh args =
  findLoop sr rest (inherit (defaultRoute sr) rt) (inherit (errorHandler sr) erh) args.
Proof. reflexivity. Qed.

Lemma findLoop_literal sr pathPart rest rt erh args tmp :
  pathPart ≠ "" →
  children sr !! pathPart = Some tmp →
  findLoop sr (pathPart :: rest) rt erh args =
  findLoop tmp rest (inherit (defaultRoute sr) rt) (inherit (errorHandler sr) erh) args.
Proof. intros Hne Hlit. simpl. rewrite decide_False by done. by rewrite Hlit. Qed.

Lemma findLoop_wildcard sr pathPart rest rt erh args tmp :
  pathPart ≠ "" →
  children sr !! pathPart = None →
  children sr !! "*" = Some tmp →
  findLoop sr (pathPart :: rest) rt erh args =
  findLoop tmp rest (inherit (defaultRoute sr) rt) (inherit (errorHandler sr) erh)
    (args ++ [pathPart]).
Proof. intros Hne Hlit Hwild. simpl. rewrite decide_False by done. by rewrite Hlit, Hwild. Qed.

Lemma findLoop_dead_end sr pathPart rest rt erh args :
  pathPart ≠ "" →
  children sr !! pathPart = None →
  children sr !! "*" = None →
  findLoop sr (pathPart :: rest) rt erh args =
  (inherit (defaultRoute sr) rt, inherit (errorHandler sr) erh, args).
Proof. intros Hne Hlit Hwild. simpl. rewrite decide_False by done. by rewrite Hlit, Hwild. Qed.

(** Running the loop over [before ++ after] is running it over [before]
    and, unless it returned, going on over [after]. *)
Lemma findLoop_app sr before after rt erh args :
  findLoop sr (before ++ after) rt erh args =
  match walkPrefix sr before rt erh args with
  | Some w => findLoop (walk_sr w) after (walk_rt w) (walk_erh w) (walk_args w)
  | None => findLoop sr before rt erh args
  end.
Proof.
  revert sr rt erh args.
  induction before as [|pathPart before IH]; intros sr rt erh args; [done|].
  simpl. case_decide; [apply IH|].
  destruct (children sr !! pathPart) as [tmp|]; [apply IH|].
  destruct (children sr !! "*") as [tmp|]; [apply IH|done].
Qed.

Lemma inherit_idemp {A} (slot : option A) (cur : A) :
  inherit slot (inherit slot cur) = inherit slot cur.
Proof. by destruct slot. Qed.

Lemma trail_head sr pathParts : ∃ nodes, trail sr pathParts = sr :: nodes.
Proof.
  induction pathParts as [|pathPart rest IH]; simpl; [by eexists|].
  case_decide; [done|].
  destruct (children sr !! pathPart); [by eexists|].
  destruct (children sr !! "*"); by eexists.
Qed.

Lemma lastSet_trail_inherit {A} (slot : subrouter → option A) sr pathParts (cur : A) :
  lastSet (slot <$> trail sr pathParts) (inherit (slot sr) cur) =
  lastSet (slot <$> trail sr pathParts) cur.
Proof.
  destruct (trail_head sr pathParts) as [nodes ->].
  unfold lastSet. simpl. by rewrite inherit_idemp.
Qed.

(** What the loop holds in [rt] and [erh] once the node it is at has been
    inherited from is the last default route and the last error handler
    set on the nodes it went through. *)
Lemma walkPrefix_lastSet sr pathParts rt erh args w :
  walkPrefix sr pathParts rt erh args = Some w →
  inherit (defaultRoute (walk_sr w)) (walk_rt w) =
    lastSet (defaultRoute <$> trail sr pathParts) rt ∧
  inherit (errorHandler (walk_sr w)) (walk_erh w) =
    lastSet (errorHandler <$> trail sr pathParts) erh.
Proof.
  revert sr rt erh args.
  induction pathParts as [|pathPart rest IH]; intros sr rt erh args Hw; simpl in *.
  { by simplify_eq. }
  case_decide.
  { apply IH in Hw as [-> ->]. by rewrite !lastSet_trail_inherit. }
  destruct (children sr !! pathPart) as [tmp|]; [by apply IH in Hw|].
  destruct (children sr !! "*") as [tmp|]; [by apply IH in Hw|done].
Qed.

(** ** [ServeHTTP] *)

Lemma ServeHTTP_run r req w log :
  ServeHTTP r req (w, log) =
  let '(rt, erh, args) := findRoute r (Method req) (Split (URL_Path req)) in
  let '(er, w') := rt w req args in
  match er with
  | Some er =>
      (tt, (erh w' req er, log ++ [RouteCall rt req args; ErrorHandlerCall erh req er]))
  | None => (tt, (w', log ++ [RouteCall rt req args]))
  end.
Proof.
  unfold ServeHTTP.
  destruct (findRoute r (Method req) (Split (URL_Path req))) as [[rt erh] args].
  unfold mbind, serving_bind, callRoute.
  destruct (rt w req args) as [[er|] w']; simpl; [|done].
  by rewrite <-app_assoc.
Qed.

(** ** The loop of [insertSubrouter] *)

Lemma segments_cons pathPart pathParts :
  segments (pathPart :: pathParts) =
  if decide (pathPart = "") then segments pathParts else pathPart :: segments pathParts.
Proof.
  unfold segments. rewrite filter_cons.
  repeat case_decide; done.
Qed.

(** Empty segments make no difference to a registration. *)
Lemma insertLoop_segments sr pathParts use :
  insertLoop sr pathParts use = insertLoop sr (segments pathParts) use.
Proof.
  revert sr. induction pathParts as [|pathPart rest IH]; intros sr; [done|].
  rewrite segments_cons. simpl. case_decide; [apply IH|].
  simpl. rewrite decide_False by done. by rewrite IH.
Qed.

Lemma nodeAt_new keys n : nodeAt newSubrouter keys = Some n → n = newSubrouter.
Proof. destruct keys; simpl; [congruence|by rewrite lookup_empty]. Qed.

Lemma terminal_cons sr key keys :
  terminal sr (key :: keys) = terminal (default newSubrouter (children sr !! key)) keys.
Proof.
  unfold terminal. simpl. destruct (children sr !! key) as [child|]; [done|]. simpl.
  destruct (nodeAt newSubrouter keys) as [n|] eqn:Hn; [|done].
  by apply nodeAt_new in Hn as ->.
Qed.

(** The loop hands [use] the terminal node, panics when [use] does, and
    otherwise leaves what [use] made of that node at the keys of the path. *)
Lemma insertLoop_outcome sr pathParts use :
  match insertLoop sr pathParts use with
  | Done sr' =>
      ∃ n', use (terminal sr (segments pathParts)) = Done n' ∧
            nodeAt sr' (segments pathParts) = Some n'
  | Panic msg => use (terminal sr (segments pathParts)) = Panic msg
  end.
Proof.
  revert sr. induction pathParts as [|pathPart rest IH]; intros sr.
  { simpl. unfold terminal. simpl. destruct (use sr) as [n'|msg]; eauto. }
  rewrite segments_cons. simpl. case_decide; [apply IH|].
  rewrite terminal_cons.
  specialize (IH (default newSubrouter (children sr !! pathPart))).
  destruct (insertLoop _ rest use) as [tmp'|msg]; [|done].
  destruct IH as (n' & Huse & Hn'). exists n'. split; [done|].
  simpl. by rewrite lookup_insert_eq.
Qed.

Lemma slotsKept_refl n : slotsKept n n.
Proof. by repeat split. Qed.

Lemma slotsKept_trans n1 n2 n3 : slotsKept n1 n2 → slotsKept n2 n3 → slotsKept n1 n3.
Proof. intros (?&?&?) (?&?&?). repeat split; eauto. Qed.

Lemma trieKept_refl sr : trieKept sr sr.
Proof. intros keys n Hn. exists n. eauto using slotsKept_refl. Qed.

Lemma trieKept_trans sr1 sr2 sr3 : trieKept sr1 sr2 → trieKept sr2 sr3 → trieKept sr1 sr3.
Proof.
  intros H12 H23 keys n1 Hn1.
  destruct (H12 _ _ Hn1) as (n2 & Hn2 & ?).
  destruct (H23 _ _ Hn2) as (n3 & Hn3 & ?).
  exists n3. eauto using slotsKept_trans.
Qed.

Lemma routerKept_refl r : routerKept r r.
Proof. intros method sr Hsr. exists sr. eauto using trieKept_refl. Qed.

Lemma routerKept_trans r1 r2 r3 : routerKept r1 r2 → routerKept r2 r3 → routerKept r1 r3.
Proof.
  intros H12 H23 method sr1 Hsr1.
  destruct (H12 _ _ Hsr1) as (sr2 & Hsr2 & ?).
  destruct (H23 _ _ Hsr2) as (sr3 & Hsr3 & ?).
  exists sr3. eauto using trieKept_trans.
Qed.

(** A registration that returns has kept every node and every slot that
    was set. *)
Lemma insertLoop_kept sr pathParts use sr' :
  fills use →
  insertLoop sr pathParts use = Done sr' →
  trieKept sr sr'.
Proof.
  intros Huse. revert sr sr'.
  induction pathParts as [|pathPart rest IH]; intros sr sr' Hdone; simpl in Hdone.
  { destruct (Huse _ _ Hdone) as [Hchildren Hslots].
    intros [|key keys] n Hn; simpl in *.
    - simplify_eq. eauto.
    - rewrite Hchildren. eauto using slotsKept_refl. }
  case_decide; [by apply IH|].
  destruct (insertLoop _ rest use) as [tmp'|msg] eqn:Htmp; [|done].
  simplify_eq. apply IH in Htmp.
  intros [|key keys] n Hn; simpl in *.
  { simplify_eq. eexists. split; [done|]. by repeat split. }
  destruct (decide (pathPart = key)) as [->|Hkey].
  - rewrite lookup_insert_eq.
    destruct (children sr !! key) as [child|]; [|done]. by apply Htmp.
  - rewrite lookup_insert_ne by done. eauto using slotsKept_refl.
Qed.

Lemma fills_setRoute method url ort : fills (setRoute method url ort).
Proof.
  intros n n'. unfold setRoute. destruct (route n) eqn:Hroute; intros [= <-].
  split; [done|]. repeat split; simpl; [congruence|done..].
Qed.

Lemma fills_setDefaultRoute method url ort : fills (setDefaultRoute method url ort).
Proof.
  intros n n'. unfold setDefaultRoute. destruct (defaultRoute n) eqn:Hslot; intros [= <-].
  split; [done|]. repeat split; simpl; [done|congruence|done].
Qed.

Lemma fills_setErrorHandler method url oerh : fills (setErrorHandler method url oerh).
Proof.
  intros n n'. unfold setErrorHandler. destruct (errorHandler n) eqn:Hslot; intros [= <-].
  split; [done|]. repeat split; simpl; [done|done|congruence].
Qed.

Lemma insertSubrouter_kept r method url use r' :
  fills use →
  insertSubrouter r method url use = Done r' →
  routerKept r r'.
Proof.
  intros Huse. unfold insertSubrouter.
  destruct (insertLoop _ (Split url) use) as [sr'|msg] eqn:Hloop; intros [= <-].
  apply insertLoop_kept in Hloop; [|done].
  intros method' sr Hsr. simpl.
  destruct (decide (ToLower method = method')) as [<-|Hne].
  - rewrite lookup_insert_eq. rewrite Hsr in Hloop. eauto.
  - rewrite lookup_insert_ne by done. eauto using trieKept_refl.
Qed.

Lemma register_kept r reg r' : register r reg = Done r' → routerKept r r'.
Proof.
  destruct reg; simpl; apply insertSubrouter_kept;
    auto using fills_setRoute, fills_setDefaultRoute, fills_setErrorHandler.
Qed.

Lemma registerAll_kept r regs r' : registerAll r regs = Done r' → routerKept r r'.
Proof.
  revert r. induction regs as [|reg regs IH]; intros r; simpl.
  { intros [= <-]. apply routerKept_refl. }
  destruct (register r reg) as [r1|msg] eqn:Hreg; [|done].
  intros Hrest. eapply routerKept_trans; eauto using register_kept.
Qed.

Lemma insertSubrouter_outcome r method url use :
  match insertSubrouter r method url use with
  | Done r' =>
      ∃ n', use (terminalAt r method url) = Done n' ∧ subrouterAt r' method url = Some n'
  | Panic msg => use (terminalAt r method url) = Panic msg
  end.
Proof.
  unfold insertSubrouter, terminalAt, subrouterAt.
  pose proof (insertLoop_outcome
    (default newSubrouter (Router_children r !! ToLower method)) (Split url) use) as Hloop.
  destruct (insertLoop _ (Split url) use) as [sr'|msg]; [|done].
  simpl. by rewrite lookup_insert_eq.
Qed.

(** The slots of the terminal node are the slots the router has at the
    place of the registration. *)
Lemma terminalAt_slots r method url :
  route (terminalAt r method url) = routeAt r method url ∧
  defaultRoute (terminalAt r method url) = defaultRouteAt r method url ∧
  errorHandler (terminalAt r method url) = errorHandlerAt r method url.
Proof.
  unfold terminalAt, terminal, routeAt, defaultRouteAt, errorHandlerAt, subrouterAt.
  destruct (Router_children r !! ToLower method) as [sr|]; simpl.
  { by destruct (nodeAt sr _). }
  destruct (nodeAt newSubrouter _) as [n|] eqn:Hn; [|done].
  by apply nodeAt_new in Hn as ->.
Qed.

Lemma subrouterAt_kept r r' method url n :
  routerKept r r' →
  subrouterAt r method url = Some n →
  ∃ n', subrouterAt r' method url = Some n' ∧ slotsKept n n'.
Proof.
  unfold subrouterAt. intros Hkept Hn.
  destruct (Router_children r !! ToLower method) as [sr|] eqn:Hsr; [|done].
  destruct (Hkept _ _ Hsr) as (sr' & -> & Htrie). by apply Htrie.
Qed.

Lemma routeAt_kept r r' method url rt :
  routerKept r r' → routeAt r method url = Some rt → routeAt r' method url = Some rt.
Proof.
  unfold routeAt. intros Hkept Hrt.
  destruct (subrouterAt r method url) as [n|] eqn:Hn; [|done].
  destruct (subrouterAt_kept _ _ _ _ _ Hkept Hn) as (n' & -> & Hslots & _). auto.
Qed.

Lemma defaultRouteAt_kept r r' method url rt :
  routerKept r r' →
  defaultRouteAt r method url = Some rt → defaultRouteAt r' method url = Some rt.
Proof.
  unfold defaultRouteAt. intros Hkept Hrt.
  destruct (subrouterAt r method url) as [n|] eqn:Hn; [|done].
  destruct (subrouterAt_kept _ _ _ _ _ Hkept Hn) as (n' & -> & _ & Hslots & _). auto.
Qed.

Lemma errorHandlerAt_kept r r' method url erh :
  routerKept r r' →
  errorHandlerAt r method url = Some erh → errorHandlerAt r' method url = Some erh.
Proof.
  unfold errorHandlerAt. intros Hkept Hrt.
  destruct (subrouterAt r method url) as [n|] eqn:Hn; [|done].
  destruct (subrouterAt_kept _ _ _ _ _ Hkept Hn) as (n' & -> & _ & _ & Hslots). auto.
Qed.

(** ** Unknown methods, dead ends and dispatch *)

(** C6: for every path, [findRoute] with a method whose lower-cased form
    has no root in the router returns the built-in route and the built-in
    error handler with no arguments; being a total function, it fails on no
    input. *)
Theorem findRoute_unknown_method r method pathParts :
  Router_children r !! ToLower method = None →
  findRoute r method pathParts = (nullRoute, nullErrorHandler, []).
Proof. intros Hroot. unfold findRoute. by rewrite Hroot. Qed.

Lemma callsOf_run r req w rt erh args :
  findRoute r (Method req) (Split (URL_Path req)) = (rt, erh, args) →
  callsOf r req w =
    RouteCall rt req args ::
    match fst (rt w req args) with
    | Some er => [ErrorHandlerCall erh req er]
    | None => []
    end.
Proof.
  intros Hfind. unfold callsOf. rewrite ServeHTTP_run, Hfind.
  by destruct (rt w req args) as [[er|] w'].
Qed.

(** C5: when the walk, having gone through the segments [before] without
    returning, meets a non-empty segment that is the key of no child of the
    node it is at and that node has no wildcard child either, [findRoute]
    returns at once, whatever segments come [after]: the route is the last
    default route set on the nodes gone through (the built-in one if none
    is set), the error handler likewise, and the arguments are the ones
    gathered so far.  The call returns normally, and [ServeHTTP] then calls
    no error handler unless the route it got reports a failure. *)
Theorem findRoute_dead_end r method root before pathPart after st :
  Router_children r !! ToLower method = Some root →
  walkPrefix root before (inherit (defaultRoute root) nullRoute)
    (inherit (errorHandler root) nullErrorHandler) [] = Some st →
  pathPart ≠ "" →
  children (walk_sr st) !! pathPart = None →
  children (walk_sr st) !! "*" = None →
  let rt := inherit (defaultRoute (walk_sr st)) (walk_rt st) in
  let erh := inherit (errorHandler (walk_sr st)) (walk_erh st) in
  findRoute r method (before ++ pathPart :: after) = (rt, erh, walk_args st) ∧
  rt = lastSet (defaultRoute <$> trail root before) nullRoute ∧
  erh = lastSet (errorHandler <$> trail root before) nullErrorHandler ∧
  (∀ req w,
     Method req = method →
     Split (URL_Path req) = before ++ pathPart :: after →
     fst (rt w req (walk_args st)) = None →
     callsOf r req w = [RouteCall rt req (walk_args st)]).
Proof.
  intros Hroot Hwalk Hne Hlit Hwild rt erh.
  assert (findRoute r method (before ++ pathPart :: after) = (rt, erh, walk_args st))
    as Hfind.
  { unfold findRoute. rewrite Hroot, findLoop_app, Hwalk.
    by apply findLoop_dead_end. }
  destruct (walkPrefix_lastSet _ _ _ _ _ _ Hwalk) as [Hrt Herh].
  rewrite lastSet_trail_inherit in Hrt. rewrite lastSet_trail_inherit in Herh.
  repeat split; [done..|].
  intros req w <- Hsplit Hnil. rewrite <-Hsplit in Hfind.
  rewrite (callsOf_run _ _ _ _ _ _ Hfind). by rewrite Hnil.
Qed.

(** C8: for every request, [ServeHTTP] calls the route [findRoute] picked
    once, and calls the error handler picked for the same request, with the
    failure of the route, if and only if the route returns one: a route that
    returns [nil] leads to no call of an error handler, and a failure goes
    to one error handler. *)
Theorem ServeHTTP_calls r req w :
  let '(rt, erh, args) := findRoute r (Method req) (Split (URL_Path req)) in
  let er := fst (rt w req args) in
  let w' := snd (rt w req args) in
  let calls := callsOf r req w in
  calls = RouteCall rt req args ::
          match er with Some er => [ErrorHandlerCall erh req er] | None => [] end ∧
  routeCalls calls = 1 ∧
  errorHandlerCalls calls = match er with Some _ => 1 | None => 0 end ∧
  (errorHandlerCalls calls = 1 ↔ is_Some er) ∧
  fst (snd (ServeHTTP r req (w, []))) =
    match er with Some er => erh w' req er | None => w' end.
Proof.
  destruct (findRoute r (Method req) (Split (URL_Path req))) as [[rt erh] args] eqn:Hfind.
  simpl. rewrite (callsOf_run _ _ _ _ _ _ Hfind).
  rewrite ServeHTTP_run, Hfind.
  destruct (rt w req args) as [[er|] w']; simpl; repeat split; eauto.
  - done.
  - by intros [? ?].
Qed.

(** ** What a registration does to the slots *)

Lemma Handle_outcome r method url ort :
  match Handle r method url ort with
  | Done r' =>
      routeAt r method url = None ∧
      routeAt r' method url = ort ∧
      defaultRouteAt r' method url = defaultRouteAt r method url ∧
      errorHandlerAt r' method url = errorHandlerAt r method url
  | Panic msg =>
      is_Some (routeAt r method url) ∧
      msg = "router: already exists a route for " +:+ method +:+ " " +:+ url
  end.
Proof.
  pose proof (insertSubrouter_outcome r method url (setRoute method url ort)) as Hout.
  destruct (terminalAt_slots r method url) as (Hrt & Hdef & Herr).
  unfold Handle. unfold setRoute in Hout. rewrite Hrt in Hout.
  unfold routeAt at 2, defaultRouteAt at 1, errorHandlerAt at 1.
  destruct (insertSubrouter _ _ _ _) as [r'|msg].
  - destruct Hout as (n' & Huse & ->).
    destruct (routeAt r method url); simplify_eq. simpl. by rewrite Hdef, Herr.
  - destruct (routeAt r method url); simplify_eq. by split; [eexists|].
Qed.

Lemma SetDefault_outcome r method url ort :
  match SetDefault r method url ort with
  | Done r' =>
      defaultRouteAt r method url = None ∧
      defaultRouteAt r' method url = ort ∧
      routeAt r' method url = routeAt r method url ∧
      errorHandlerAt r' method url = errorHandlerAt r method url
  | Panic msg =>
      is_Some (defaultRouteAt r method url) ∧
      msg = "router: already exists a default route for " +:+ method +:+ " " +:+ url
  end.
Proof.
  pose proof (insertSubrouter_outcome r method url (setDefaultRoute method url ort)) as Hout.
  destruct (terminalAt_slots r method url) as (Hrt & Hdef & Herr).
  unfold SetDefault. unfold setDefaultRoute in Hout. rewrite Hdef in Hout.
  unfold routeAt at 1, defaultRouteAt at 2, errorHandlerAt at 1.
  destruct (insertSubrouter _ _ _ _) as [r'|msg].
  - destruct Hout as (n' & Huse & ->).
    destruct (defaultRouteAt r method url); simplify_eq. simpl. by rewrite Hrt, Herr.
  - destruct (defaultRouteAt r method url); simplify_eq. by split; [eexists|].
Qed.

Lemma SetErrorHandler_outcome r method url oerh :
  match SetErrorHandler r method url oerh with
  | Done r' =>
      errorHandlerAt r method url = None ∧
      errorHandlerAt r' method url = oerh ∧
      routeAt r' method url = routeAt r method url ∧
      defaultRouteAt r' method url = defaultRouteAt r method url
  | Panic msg =>
      is_Some (errorHandlerAt r method url) ∧
      msg = "router: already exists an error handler for " +:+ method +:+ " " +:+ url
  end.
Proof.
  pose proof (insertSubrouter_outcome r method url (setErrorHandler method url oerh)) as Hout.
  destruct (terminalAt_slots r method url) as (Hrt & Hdef & Herr).
  unfold SetErrorHandler. unfold setErrorHandler in Hout. rewrite Herr in Hout.
  unfold routeAt at 1, defaultRouteAt at 1, errorHandlerAt at 2.
  destruct (insertSubrouter _ _ _ _) as [r'|msg].
  - destruct Hout as (n' & Huse & ->).
    destruct (errorHandlerAt r method url); simplify_eq. simpl. by rewrite Hrt, Hdef.
  - destruct (errorHandlerAt r method url); simplify_eq. by split; [eexists|].
Qed.

(** A slot that is set makes the registration for it panic, and a slot that
    is not set lets it return. *)
Lemma Handle_panics r method url ort :
  is_Some (routeAt r method url) → ∃ msg, Handle r method url ort = Panic msg.
Proof.
  intros [rt' Hset]. pose proof (Handle_outcome r method url ort) as Hout.
  destruct (Handle r method url ort) as [r'|msg]; [|by eexists].
  destruct Hout as [Hnone _]. congruence.
Qed.

Lemma SetDefault_panics r method url ort :
  is_Some (defaultRouteAt r method url) → ∃ msg, SetDefault r method url ort = Panic msg.
Proof.
  intros [rt' Hset]. pose proof (SetDefault_outcome r method url ort) as Hout.
  destruct (SetDefault r method url ort) as [r'|msg]; [|by eexists].
  destruct Hout as [Hnone _]. congruence.
Qed.

Lemma SetErrorHandler_panics r method url oerh :
  is_Some (errorHandlerAt r method url) → ∃ msg, SetErrorHandler r method url oerh = Panic msg.
Proof.
  intros [rt' Hset]. pose proof (SetErrorHandler_outcome r method url oerh) as Hout.
  destruct (SetErrorHandler r method url oerh) as [r'|msg]; [|by eexists].
  destruct Hout as [Hnone _]. congruence.
Qed.

Lemma Handle_returns r method url ort :
  routeAt r method url = None →
  ∃ r', Handle r method url ort = Done r' ∧
        routeAt r' method url = ort ∧
        defaultRouteAt r' method url = defaultRouteAt r method url ∧
        errorHandlerAt r' method url = errorHandlerAt r method url.
Proof.
  intros Hnone. pose proof (Handle_outcome r method url ort) as Hout.
  destruct (Handle r method url ort) as [r'|msg].
  - destruct Hout as (?&?&?&?). eauto 6.
  - rewrite Hnone in Hout. by destruct Hout as [[? ?] _].
Qed.



(** ** Exact routes *)

(** A walk along the segments of a registered path stays on literal
    children, gathers no argument and ends on the node of the path. *)
Lemma findLoop_exact sr pathParts rt erh args n R :
  nodeAt sr (segments pathParts) = Some n →
  route n = Some R →
  fst (fst (findLoop sr pathParts rt erh args)) = R ∧
  snd (findLoop sr pathParts rt erh args) = args.
Proof.
  revert sr rt erh args.
  induction pathParts as [|pathPart rest IH]; intros sr rt erh args Hn HR.
  { simpl in *. simplify_eq. by rewrite HR. }
  rewrite segments_cons in Hn. simpl. case_decide; [by apply IH|].
  simpl in Hn. destruct (children sr !! pathPart) as [tmp|]; [by apply IH|done].
Qed.

Lemma findRoute_exact r method url R :
  routeAt r method url = Some R →
  fst (fst (findRoute r method (Split url))) = R ∧
  snd (findRoute r method (Split url)) = [].
Proof.
  unfold routeAt, subrouterAt, findRoute. intros HR.
  destruct (Router_children r !! ToLower method) as [sr|]; [|done].
  destruct (nodeAt sr (segments (Split url))) as [n|] eqn:Hn; [|done].
  by eapply findLoop_exact.
Qed.

Lemma Handle_then_routeAt r method url (R : Route) r1 regs r2 :
  Handle r method url (Some R) = Done r1 →
  registerAll r1 regs = Done r2 →
  routeAt r2 method url = Some R.
Proof.
  intros Hhandle Hregs. pose proof (Handle_outcome r method url (Some R)) as Hout.
  rewrite Hhandle in Hout. destruct Hout as (_ & HR & _).
  eauto using routeAt_kept, registerAll_kept.
Qed.

(** C2: a handler registered with [Handle] at [(method, url)], where [url]
    has no trailing slash, is the route [findRoute] returns for that method
    and exactly that path, with no arguments; this stays so whatever is
    registered afterwards.  (The walk ends on the node of the path also when
    [url] has a trailing slash; the statement keeps to the paths of the
    claim.) *)
Theorem Handle_findRoute r method url (R : Route) r1 regs r2 :
  Handle r method url (Some R) = Done r1 →
  registerAll r1 regs = Done r2 →
  trailingSlash url = false →
  fst (fst (findRoute r2 method (Split url))) = R ∧
  snd (findRoute r2 method (Split url)) = [].
Proof.
  intros Hhandle Hregs _.
  eauto using findRoute_exact, Handle_then_routeAt.
Qed.

(** ** Single assignment of the three slots *)

Lemma registerAll_cons r reg regs :
  registerAll r (reg :: regs) =
  match register r reg with
  | Done r' => registerAll r' regs
  | Panic msg => Panic msg
  end.
Proof. reflexivity. Qed.



(** ** Routers with one method *)

Lemma register_insertSubrouter r reg :
  register r reg = insertSubrouter r (methodOf reg) (urlOf reg) (useOf reg).
Proof. by destruct reg. Qed.

Lemma insertAll_cons sr reg regs :
  insertAll sr (reg :: regs) =
  match insertLoop sr (Split (urlOf reg)) (useOf reg) with
  | Done sr' => insertAll sr' regs
  | Panic msg => Panic msg
  end.
Proof. reflexivity. Qed.

(** Registrations that all have the same method act on the trie of that
    method alone. *)
Lemma registerAll_one_method r method reg regs :
  Forall (λ reg, ToLower (methodOf reg) = ToLower method) (reg :: regs) →
  registerAll r (reg :: regs) =
  match insertAll (default newSubrouter (Router_children r !! ToLower method))
          (reg :: regs) with
  | Done sr => Done {| Router_children := <[ToLower method := sr]> (Router_children r) |}
  | Panic msg => Panic msg
  end.
Proof.
  revert r reg. induction regs as [|reg' regs IH]; intros r reg Hall;
    apply Forall_cons in Hall as [Hreg Hall];
    rewrite registerAll_cons, register_insertSubrouter; unfold insertSubrouter;
    rewrite Hreg, (insertAll_cons _ reg);
    destruct (insertLoop _ (Split (urlOf reg)) (useOf reg)) as [sr'|msg]; try done.
  rewrite (IH _ _ Hall). cbn [Router_children].
  rewrite lookup_insert_eq. cbn [default from_option id].
  destruct (insertAll sr' (reg' :: regs)) as [sr''|msg]; [|done].
  by rewrite insert_insert_eq.
Qed.

Lemma registerAll_NewRouter method reg regs :
  Forall (λ reg, ToLower (methodOf reg) = ToLower method) (reg :: regs) →
  registerAll NewRouter (reg :: regs) =
  match insertAll newSubrouter (reg :: regs) with
  | Done sr => Done {| Router_children := {[ToLower method := sr]} |}
  | Panic msg => Panic msg
  end.
Proof.
  intros Hall. rewrite (registerAll_one_method _ method) by done.
  unfold NewRouter. cbn [Router_children]. by rewrite lookup_empty.
Qed.

Lemma findRoute_one_method method sr pathParts :
  findRoute {| Router_children := {[ToLower method := sr]} |} method pathParts =
  findLoop sr pathParts (inherit (defaultRoute sr) nullRoute)
    (inherit (errorHandler sr) nullErrorHandler) [].
Proof. unfold findRoute. cbn [Router_children]. by rewrite lookup_singleton_eq. Qed.

(** [run_registrations] runs the registrations of a router built from
    [NewRouter] under one method; [run_walks] runs the walks asked for. *)
Ltac run_registrations method :=
  rewrite (registerAll_NewRouter method) by (repeat constructor);
  match goal with
  | |- context [insertAll ?sr ?regs] =>
      let v := eval vm_compute in (insertAll sr regs) in
      lazymatch v with
      | Done ?built =>
          let trie := fresh "trie" in
          pose (trie := built);
          replace (insertAll sr regs) with (Done trie) by (vm_compute; reflexivity)
      end
  end.

Ltac run_walks := repeat split; vm_compute; reflexivity.

(** ** The order of registrations is immaterial *)

Lemma subrouter_eta sr : withChildren (children sr) sr = sr.
Proof. by destruct sr. Qed.

(** A registration looks at the slots of the node only, and leaves its
    children as they are. *)
Lemma useOf_withChildren reg c n :
  useOf reg (withChildren c n) =
  match useOf reg n with
  | Done n' => Done (withChildren c n')
  | Panic msg => Panic msg
  end.
Proof.
  destruct reg; simpl; unfold setRoute, setDefaultRoute, setErrorHandler; simpl.
  - by destruct (route n).
  - by destruct (defaultRoute n).
  - by destruct (errorHandler n).
Qed.

Lemma useOf_children reg n n' : useOf reg n = Done n' → children n' = children n.
Proof.
  destruct reg; simpl; unfold setRoute, setDefaultRoute, setErrorHandler.
  - destruct (route n); by intros [= <-].
  - destruct (defaultRoute n); by intros [= <-].
  - destruct (errorHandler n); by intros [= <-].
Qed.

(** Two registrations that both return when made one after the other on a
    node return the same node when made the other way round, if the first
    is given a handler. *)
Lemma useOf_commute reg1 reg2 n n1 n12 :
  givesHandler reg1 →
  useOf reg1 n = Done n1 →
  useOf reg2 n1 = Done n12 →
  ∃ n2, useOf reg2 n = Done n2 ∧ useOf reg1 n2 = Done n12.
Proof.
  intros Hgives.
  destruct reg1 as [? ? [h1|]|? ? [h1|]|? ? [h1|]]; try (by destruct Hgives); clear Hgives;
    destruct reg2; simpl; unfold setRoute, setDefaultRoute, setErrorHandler;
    destruct (route n) eqn:?, (defaultRoute n) eqn:?, (errorHandler n) eqn:?;
    intros [= <-]; simpl; try done;
    repeat match goal with H : _ = _ |- _ => rewrite H end;
    intros [= <-]; eexists; (split; [reflexivity|]); simpl;
    repeat match goal with H : _ = _ |- _ => rewrite H end; done.
Qed.

Lemma insertLoop_cons sr pathPart rest use :
  pathPart ≠ "" →
  insertLoop sr (pathPart :: rest) use =
  match insertLoop (default newSubrouter (children sr !! pathPart)) rest use with
  | Done tmp' => Done (withChildren (<[pathPart := tmp']> (children sr)) sr)
  | Panic msg => Panic msg
  end.
Proof. intros Hne. simpl. by rewrite decide_False. Qed.

Lemma insertLoop_commute_keys sr keys1 keys2 reg1 reg2 sr1 sr12 :
  givesHandler reg1 →
  Forall (λ key, key ≠ "") keys1 →
  Forall (λ key, key ≠ "") keys2 →
  insertLoop sr keys1 (useOf reg1) = Done sr1 →
  insertLoop sr1 keys2 (useOf reg2) = Done sr12 →
  ∃ sr2, insertLoop sr keys2 (useOf reg2) = Done sr2 ∧
         insertLoop sr2 keys1 (useOf reg1) = Done sr12.
Proof.
  intros Hgives Hkeys1. revert sr keys2 sr1 sr12.
  induction Hkeys1 as [|key1 keys1 Hkey1 _ IH]; intros sr keys2 sr1 sr12 Hkeys2.
  - (* the first registration is for the node itself *)
    destruct Hkeys2 as [|key2 keys2 Hkey2 _].
    { simpl. by apply useOf_commute. }
    simpl insertLoop at 1 4. intros Huse1.
    rewrite !insertLoop_cons by done.
    rewrite (useOf_children _ _ _ Huse1).
    destruct (insertLoop _ keys2 (useOf reg2)) as [tmp'|msg]; [|done].
    intros [= <-]. eexists. split; [done|].
    rewrite useOf_withChildren, Huse1. by destruct sr1.
  - rewrite insertLoop_cons by done.
    destruct (insertLoop _ keys1 (useOf reg1)) as [tmp1|msg] eqn:Htmp1; [|done].
    intros [= <-].
    destruct Hkeys2 as [|key2 keys2 Hkey2 Hkeys2].
    + (* the second registration is for the node itself *)
      simpl insertLoop at 1 2. rewrite useOf_withChildren.
      destruct (useOf reg2 sr) as [sr2|msg] eqn:Huse2; [|done].
      intros [= <-]. eexists. split; [done|].
      rewrite insertLoop_cons by done.
      rewrite (useOf_children _ _ _ Huse2), Htmp1. by destruct sr2.
    + rewrite !insertLoop_cons by done. cbn [children withChildren].
      destruct (decide (key1 = key2)) as [<-|Hne].
      * (* both go down the same child *)
        rewrite lookup_insert_eq. cbn [default from_option id].
        destruct (insertLoop tmp1 keys2 (useOf reg2)) as [tmp12|msg] eqn:Htmp12; [|done].
        intros [= <-].
        destruct (IH _ _ _ _ Hkeys2 Htmp1 Htmp12) as (tmp2 & -> & Hback).
        eexists. split; [done|].
        rewrite insertLoop_cons by done. cbn [children withChildren].
        rewrite lookup_insert_eq. cbn [default from_option id]. rewrite Hback.
        by rewrite !insert_insert_eq.
      * (* they go down different children *)
        rewrite lookup_insert_ne by done.
        destruct (insertLoop _ keys2 (useOf reg2)) as [tmp2|msg]; [|done].
        intros [= <-]. eexists. split; [done|].
        rewrite insertLoop_cons by done. cbn [children withChildren].
        rewrite lookup_insert_ne by done. rewrite Htmp1.
        by rewrite insert_insert_ne.
Qed.

Lemma segments_nonempty pathParts : Forall (λ key, key ≠ "") (segments pathParts).
Proof. apply Forall_forall. unfold segments. by intros key [? ?]%list_elem_of_filter. Qed.

Lemma insertLoop_commute sr reg1 reg2 sr1 sr12 :
  givesHandler reg1 →
  insertLoop sr (Split (urlOf reg1)) (useOf reg1) = Done sr1 →
  insertLoop sr1 (Split (urlOf reg2)) (useOf reg2) = Done sr12 →
  ∃ sr2, insertLoop sr (Split (urlOf reg2)) (useOf reg2) = Done sr2 ∧
         insertLoop sr2 (Split (urlOf reg1)) (useOf reg1) = Done sr12.
Proof.
  rewrite (insertLoop_segments sr), (insertLoop_segments sr1).
  intros Hgives Hfirst Hsecond.
  destruct (insertLoop_commute_keys _ _ _ _ _ _ _ Hgives
    (segments_nonempty _) (segments_nonempty _) Hfirst Hsecond) as (sr2 & ? & ?).
  exists sr2. by rewrite (insertLoop_segments sr), (insertLoop_segments sr2).
Qed.

Lemma register_commute r reg1 reg2 r1 r12 :
  givesHandler reg1 →
  register r reg1 = Done r1 →
  register r1 reg2 = Done r12 →
  ∃ r2, register r reg2 = Done r2 ∧ register r2 reg1 = Done r12.
Proof.
  intros Hgives. setoid_rewrite register_insertSubrouter. unfold insertSubrouter.
  destruct (insertLoop _ (Split (urlOf reg1)) (useOf reg1)) as [sr1|msg] eqn:Hfirst; [|done].
  intros [= <-]. cbn [Router_children].
  destruct (decide (ToLower (methodOf reg1) = ToLower (methodOf reg2))) as [Hkey|Hkey].
  - rewrite <-Hkey. rewrite lookup_insert_eq. cbn [default from_option id].
    destruct (insertLoop sr1 _ (useOf reg2)) as [sr12|msg] eqn:Hsecond; [|done].
    intros [= <-].
    destruct (insertLoop_commute _ _ _ _ _ Hgives Hfirst Hsecond) as (sr2 & -> & Hback).
    eexists. split; [done|]. cbn [Router_children].
    rewrite lookup_insert_eq. cbn [default from_option id]. rewrite Hback.
    by rewrite !insert_insert_eq.
  - rewrite lookup_insert_ne by done.
    destruct (insertLoop _ _ (useOf reg2)) as [sr2|msg]; [|done].
    intros [= <-]. eexists. split; [done|]. cbn [Router_children].
    rewrite lookup_insert_ne by done. rewrite Hfirst.
    by rewrite insert_insert_ne.
Qed.

(** Registrations that are given handlers and all return build the same
    router in any order. *)
Lemma registerAll_Permutation regs regs' :
  regs ≡ₚ regs' →
  Forall givesHandler regs →
  ∀ r r', registerAll r regs = Done r' → registerAll r regs' = Done r'.
Proof.
  induction 1 as [|reg regs regs' _ IH|reg1 reg2 regs|regs1 regs2 regs3 Hperm IH1 _ IH2];
    intros Hgive r r'; [done|..].
  - apply Forall_cons in Hgive as [_ Hgive].
    rewrite !registerAll_cons. destruct (register r reg); [by apply IH|done].
  - apply Forall_cons in Hgive as [Hgive2 _].
    rewrite !registerAll_cons.
    destruct (register r reg2) as [r2|msg] eqn:Hfirst; [|done].
    rewrite registerAll_cons.
    destruct (register r2 reg1) as [r21|msg] eqn:Hsecond; [|done].
    destruct (register_commute _ _ _ _ _ Hgive2 Hfirst Hsecond) as (r1 & -> & Hback).
    by rewrite registerAll_cons, Hback.
  - intros Hstart. apply IH2; [by rewrite <-Hperm|]. by apply IH1.
Qed.

(** ** The two scenarios of the tests *)

(** C3: in a router where, under one method, [SetDefault] binds "/" to D1
    and "/foo" to D2 and [Handle] binds "/bar" to R3 and "/foo/bar" to R4,
    in whatever order, [findRoute] gives D1 for "/", "/foo" and "/baz", D2
    for "/foo/" and "/foo/baz", R3 for "/bar" and R4 for "/foo/bar": the
    empty last segment of "/foo/" makes the walk take the default of the
    node of "foo" without going further down, and the deeper default
    replaces the one of the root.  In general an empty segment leaves the
    walk at its node after the node's default route and error handler have
    been taken. *)
Theorem default_routes_scenario method (D1 D2 R3 R4 : Route) regs :
  regs ≡ₚ [DoSetDefault method "/" (Some D1); DoSetDefault method "/foo" (Some D2);
           DoHandle method "/bar" (Some R3); DoHandle method "/foo/bar" (Some R4)] →
  (∃ r, registerAll NewRouter regs = Done r ∧
    findRoute r method (Split "/") = (D1, nullErrorHandler, []) ∧
    findRoute r method (Split "/foo") = (D1, nullErrorHandler, []) ∧
    findRoute r method (Split "/foo/") = (D2, nullErrorHandler, []) ∧
    findRoute r method (Split "/baz") = (D1, nullErrorHandler, []) ∧
    findRoute r method (Split "/bar") = (R3, nullErrorHandler, []) ∧
    findRoute r method (Split "/foo/bar") = (R4, nullErrorHandler, []) ∧
    findRoute r method (Split "/foo/baz") = (D2, nullErrorHandler, [])) ∧
  (∀ sr rest rt erh args,
     findLoop sr ("" :: rest) rt erh args =
     findLoop sr rest (inherit (defaultRoute sr) rt) (inherit (errorHandler sr) erh) args).
Proof.
  intros Hperm. symmetry in Hperm. split; [|apply findLoop_skip].
  pose proof (registerAll_Permutation _ _ Hperm
    ltac:(repeat constructor; by eexists) NewRouter) as Horder.
  revert Horder. run_registrations method. intros Horder.
  eexists. split; [by apply Horder|].
  rewrite !findRoute_one_method. run_walks.
Qed.

(** C4: in a router where, under one method, [Handle] binds "/" to R1, "/*"
    to R2, "/*/*" to R3, "/foo/*" to R4 and "/*/foo" to R5 and [SetDefault]
    binds "/" to D6, in whatever order, [findRoute] gives D6 with no
    argument for "/foo" (the node of "foo" is there and has no route, so
    the default of the root stands and the wildcard route R2 is not looked
    at), R2 with ["bar"] for "/bar", R4 with ["bar"] for "/foo/bar", R5 with
    ["bar"] for "/bar/foo" and R3 with ["bar"; "bar"] for "/bar/bar". *)
Theorem wildcard_routes_scenario method (R1 R2 R3 R4 R5 D6 : Route) regs :
  regs ≡ₚ [DoHandle method "/" (Some R1); DoHandle method "/*" (Some R2);
           DoHandle method "/*/*" (Some R3); DoHandle method "/foo/*" (Some R4);
           DoHandle method "/*/foo" (Some R5); DoSetDefault method "/" (Some D6)] →
  ∃ r, registerAll NewRouter regs = Done r ∧
    findRoute r method (Split "/foo") = (D6, nullErrorHandler, []) ∧
    findRoute r method (Split "/bar") = (R2, nullErrorHandler, ["bar"]) ∧
    findRoute r method (Split "/foo/bar") = (R4, nullErrorHandler, ["bar"]) ∧
    findRoute r method (Split "/bar/foo") = (R5, nullErrorHandler, ["bar"]) ∧
    findRoute r method (Split "/bar/bar") = (R3, nullErrorHandler, ["bar"; "bar"]).
Proof.
  intros Hperm. symmetry in Hperm.
  pose proof (registerAll_Permutation _ _ Hperm
    ltac:(repeat constructor; by eexists) NewRouter) as Horder.
  revert Horder. run_registrations method. intros Horder.
  eexists. split; [by apply Horder|].
  rewrite !findRoute_one_method. run_walks.
Qed.

(** ** Empty segments in registered paths *)

Lemma insertSubrouter_NewRouter method url use :
  insertSubrouter NewRouter method url use =
  match insertLoop newSubrouter (segments (Split url)) use with
  | Done sr => Done {| Router_children := {[ToLower method := sr]} |}
  | Panic msg => Panic msg
  end.
Proof.
  unfold insertSubrouter, NewRouter. cbn [Router_children].
  by rewrite lookup_empty, <-insertLoop_segments.
Qed.

Lemma subrouterAt_segments r method url url' :
  segments (Split url) = segments (Split url') →
  subrouterAt r method url = subrouterAt r method url'.
Proof. unfold subrouterAt. by intros ->. Qed.

(** C9: the three registrations take paths that differ only in empty
    segments (leading, trailing or doubled slashes) to the same node of the
    trie: [insertSubrouter] does the same with both, whatever its caller
    does with the node, so that a registration for one spelling panics once
    the slot has been set through the other.  "/foo", "foo", "/foo/" and
    "//foo" are such spellings; after [SetDefault] at "/foo", [SetDefault]
    at "/foo/" panics, although a request for "/foo" does not get that
    default and a request for "/foo/" does. *)
Theorem registration_ignores_empty_segments r method url url' :
  segments (Split url) = segments (Split url') →
  ((∀ use, insertSubrouter r method url use = insertSubrouter r method url' use) ∧
   terminalAt r method url = terminalAt r method url' ∧
   (∀ rt r1 regs r2 ort',
      Handle r method url (Some rt) = Done r1 → registerAll r1 regs = Done r2 →
      ∃ msg, Handle r2 method url' ort' = Panic msg) ∧
   (∀ rt r1 regs r2 ort',
      SetDefault r method url (Some rt) = Done r1 → registerAll r1 regs = Done r2 →
      ∃ msg, SetDefault r2 method url' ort' = Panic msg) ∧
   (∀ erh r1 regs r2 oerh',
      SetErrorHandler r method url (Some erh) = Done r1 → registerAll r1 regs = Done r2 →
      ∃ msg, SetErrorHandler r2 method url' oerh' = Panic msg)) ∧
  (segments (Split "/foo") = ["foo"] ∧ segments (Split "foo") = ["foo"] ∧
   segments (Split "/foo/") = ["foo"] ∧ segments (Split "//foo") = ["foo"]) ∧
  (∀ (D : Route) (D' : option Route),
     ∃ r1, SetDefault NewRouter method "/foo" (Some D) = Done r1 ∧
       SetDefault r1 method "/foo/" D' =
         Panic ("router: already exists a default route for " +:+ method +:+ " /foo/") ∧
       findRoute r1 method (Split "/foo") = (nullRoute, nullErrorHandler, []) ∧
       findRoute r1 method (Split "/foo/") = (D, nullErrorHandler, [])).
Proof.
  intros Hsame. split_and!; try done.
  - intros use. unfold insertSubrouter.
    by rewrite (insertLoop_segments _ (Split url)), (insertLoop_segments _ (Split url')), Hsame.
  - unfold terminalAt. by rewrite Hsame.
  - intros rt r1 regs r2 ort' Hfirst Hregs. apply Handle_panics.
    unfold routeAt. rewrite <-(subrouterAt_segments _ _ _ _ Hsame).
    exists rt. by eapply Handle_then_routeAt.
  - intros rt r1 regs r2 ort' Hfirst Hregs. apply SetDefault_panics.
    unfold defaultRouteAt. rewrite <-(subrouterAt_segments _ _ _ _ Hsame).
    pose proof (SetDefault_outcome r method url (Some rt)) as Hout.
    rewrite Hfirst in Hout. destruct Hout as (_ & Hset & _).
    exists rt. eapply defaultRouteAt_kept; eauto using registerAll_kept.
  - intros erh r1 regs r2 oerh' Hfirst Hregs. apply SetErrorHandler_panics.
    unfold errorHandlerAt. rewrite <-(subrouterAt_segments _ _ _ _ Hsame).
    pose proof (SetErrorHandler_outcome r method url (Some erh)) as Hout.
    rewrite Hfirst in Hout. destruct Hout as (_ & Hset & _).
    exists erh. eapply errorHandlerAt_kept; eauto using registerAll_kept.
  - intros D D'. unfold SetDefault at 1. rewrite insertSubrouter_NewRouter.
    match goal with
    | |- context [insertLoop ?sr ?keys ?use] =>
        let v := eval vm_compute in (insertLoop sr keys use) in
        lazymatch v with
        | Done ?built =>
            pose (trie := built);
            replace (insertLoop sr keys use) with (Done trie) by (vm_compute; reflexivity)
        end
    end.
    eexists. split; [reflexivity|].
    rewrite !findRoute_one_method. split_and!; [|vm_compute; reflexivity..].
    pose proof (SetDefault_outcome
      {| Router_children := {[ToLower method := trie]} |} method "/foo/" D') as Hout.
    destruct (SetDefault _ method "/foo/" D') as [r2|msg].
    + destruct Hout as [Hnone _]. revert Hnone.
      unfold defaultRouteAt, subrouterAt. cbn [Router_children].
      rewrite lookup_singleton_eq. vm_compute. discriminate.
    + by destruct Hout as [_ ->].
Qed.

(** ** Wildcards *)

(** A walk along a request that puts values at the wildcard segments of a
    registered path, where no value is the key of a literal sibling, goes
    down the nodes of that path and gathers the values. *)
Lemma findLoop_substitute sr pattern values pathParts rt erh args n R :
  nodeAt sr (segments pattern) = Some n →
  route n = Some R →
  substitute pattern values = Some pathParts →
  Forall (λ value, value ≠ "") values →
  clashFree sr pattern values →
  fst (fst (findLoop sr pathParts rt erh args)) = R ∧
  snd (findLoop sr pathParts rt erh args) = args ++ values.
Proof.
  revert sr values pathParts rt erh args.
  induction pattern as [|pathPart pattern IH];
    intros sr values pathParts rt erh args Hn HR Hsubst Hvalues Hfree.
  { simpl in *. destruct values; simplify_eq. simpl. by rewrite HR, app_nil_r. }
  rewrite segments_cons in Hn. simpl in Hsubst, Hfree.
  destruct (decide (pathPart = "")) as [->|Hne].
  { rewrite decide_False in Hsubst by done.
    destruct (substitute pattern values) as [rest|] eqn:Hrest; simplify_eq/=.
    by eapply IH. }
  simpl in Hn.
  destruct (children sr !! pathPart) as [tmp|] eqn:Htmp; [|done].
  destruct (decide (pathPart = "*")) as [->|Hlit].
  - destruct values as [|value values]; [done|].
    destruct (substitute pattern values) as [rest|] eqn:Hrest; simplify_eq/=.
    apply Forall_cons in Hvalues as [Hvalue Hvalues].
    destruct Hfree as [Hnone Hfree]. rewrite Htmp in Hfree.
    rewrite decide_False by done. rewrite Hnone, Htmp.
    rewrite (assoc_L _ args [value] values : args ++ value :: values = (args ++ [value]) ++ values).
    by eapply IH.
  - destruct (substitute pattern values) as [rest|] eqn:Hrest; simplify_eq/=.
    rewrite decide_False by done. rewrite Htmp.
    by eapply IH.
Qed.

(** C1, as the code has it: a route registered with [Handle] at a path with
    wildcard segments is what [findRoute] returns, under the same method,
    for a request that puts a non-empty value at each wildcard segment,
    with the values in order as arguments, provided that no value is the key
    of a child of the node the walk is at when it reads the value (which
    rules out the value "*" too); this stays so whatever is registered
    afterwards.  At every node a child under the segment itself is gone down
    to whether or not there is a wildcard child, the wildcard child is looked
    for only when there is none, and only that descent adds the segment to
    the arguments. *)
Theorem wildcard_route_found r method url (R : Route) r1 regs r2 values pathParts :
  Handle r method url (Some R) = Done r1 →
  registerAll r1 regs = Done r2 →
  substitute (Split url) values = Some pathParts →
  Forall (λ value, value ≠ "") values →
  clashFreeAt r2 method url values →
  (fst (fst (findRoute r2 method pathParts)) = R ∧
   snd (findRoute r2 method pathParts) = values) ∧
  (∀ sr pathPart rest rt erh args tmp,
     pathPart ≠ "" →
     children sr !! pathPart = Some tmp →
     findLoop sr (pathPart :: rest) rt erh args =
     findLoop tmp rest (inherit (defaultRoute sr) rt) (inherit (errorHandler sr) erh) args) ∧
  (∀ sr pathPart rest rt erh args tmp,
     pathPart ≠ "" →
     children sr !! pathPart = None →
     children sr !! "*" = Some tmp →
     findLoop sr (pathPart :: rest) rt erh args =
     findLoop tmp rest (inherit (defaultRoute sr) rt) (inherit (errorHandler sr) erh)
       (args ++ [pathPart])).
Proof.
  intros Hhandle Hregs Hsubst Hvalues Hfree.
  split_and!; [..|apply findLoop_literal|apply findLoop_wildcard].
  all: pose proof (Handle_then_routeAt _ _ _ _ _ _ _ Hhandle Hregs) as HR;
    unfold routeAt, subrouterAt in HR; unfold findRoute, clashFreeAt in *;
    destruct (Router_children r2 !! ToLower method) as [sr|]; [|done];
    destruct (nodeAt sr (segments (Split url))) as [n|] eqn:Hn; [|done];
    by eapply (findLoop_substitute sr (Split url) values).
Qed.

(** C10, as the code has it: a segment "*" of a request finds the wildcard
    child as the child under the key "*" and adds nothing to the arguments.
    After [Handle] of "/*", whatever else is registered before or after,
    [findRoute] returns the route with no argument for "/*", and it returns
    the route with the argument [x] for "/x" for every non-empty segment [x]
    that is not the key of a child of the root of the method (so not "*",
    the key of the wildcard child itself).  On a new router every non-empty
    segment other than "*" is such an [x].  The same node serves as the
    child under "*" and as the wildcard child, and a second [Handle] for
    "/*" panics. *)
Theorem wildcard_key_is_literal method (R : Route) :
  (∃ r1, Handle NewRouter method "/*" (Some R) = Done r1 ∧
     findRoute r1 method (Split "/*") = (R, nullErrorHandler, []) ∧
     (∀ x, x ≠ "" → x ≠ "*" →
        findRoute r1 method [""; x] = (R, nullErrorHandler, [x])) ∧
     (∀ x, x ≠ "" → x ≠ "*" → Split x = [x] →
        findRoute r1 method (Split ("/" +:+ x)) = (R, nullErrorHandler, [x])) ∧
     (∀ R' : option Route, ∃ msg, Handle r1 method "/*" R' = Panic msg)) ∧
  (∀ r r1 regs r2,
     Handle r method "/*" (Some R) = Done r1 → registerAll r1 regs = Done r2 →
     (fst (fst (findRoute r2 method (Split "/*"))) = R ∧
      snd (findRoute r2 method (Split "/*")) = []) ∧
     (∀ x root,
        x ≠ "" →
        Router_children r2 !! ToLower method = Some root →
        children root !! x = None →
        (fst (fst (findRoute r2 method [""; x])) = R ∧
         snd (findRoute r2 method [""; x]) = [x]) ∧
        (Split x = [x] →
         fst (fst (findRoute r2 method (Split ("/" +:+ x)))) = R ∧
         snd (findRoute r2 method (Split ("/" +:+ x))) = [x])) ∧
     (∀ R' : option Route, ∃ msg, Handle r2 method "/*" R' = Panic msg)) ∧
  (∀ sr tmp rest rt erh args,
     children sr !! "*" = Some tmp →
     findLoop sr ("*" :: rest) rt erh args =
     findLoop tmp rest (inherit (defaultRoute sr) rt) (inherit (errorHandler sr) erh) args).
Proof.
  split_and!.
  - pose proof (Handle_outcome NewRouter method "/*" (Some R)) as Hout.
    unfold Handle in *. rewrite insertSubrouter_NewRouter in *.
    change (segments (Split "/*")) with ["*"] in *.
    rewrite insertLoop_cons in * by done.
    cbn [insertLoop newSubrouter children] in *. rewrite lookup_empty in *.
    cbn [default from_option id] in *. unfold setRoute in *.
    cbn [newSubrouter route children defaultRoute errorHandler] in *.
    eexists. split; [reflexivity|].
    assert (∀ x, x ≠ "" → x ≠ "*" →
      findRoute {| Router_children := {[ToLower method :=
        withChildren (<["*" := {| children := ∅; route := Some R;
                                  defaultRoute := None; errorHandler := None |}]> ∅)
          newSubrouter]} |} method [""; x] = (R, nullErrorHandler, [x])) as Hx.
    { intros x Hne Hstar. rewrite findRoute_one_method, findLoop_skip.
      rewrite (findLoop_wildcard _ x _ _ _ _
        {| children := ∅; route := Some R; defaultRoute := None; errorHandler := None |});
        [done|done|..]; cbn [withChildren children].
      - by rewrite lookup_insert_ne, lookup_empty.
      - by rewrite lookup_insert_eq. }
    split_and!.
    + rewrite findRoute_one_method. change (Split "/*") with [""; "*"].
      rewrite findLoop_skip.
      rewrite (findLoop_literal _ "*" _ _ _ _
        {| children := ∅; route := Some R; defaultRoute := None; errorHandler := None |});
        [done|done|].
      cbn [withChildren children]. by rewrite lookup_insert_eq.
    + done.
    + intros x Hne Hstar Hx1.
      change (Split ("/" +:+ x)) with ("" :: Split x). rewrite Hx1. auto.
    + intros R'. apply Handle_panics. by destruct Hout as (_ & -> & _).
  - intros r r1 regs r2 Hhandle Hregs.
    pose proof (Handle_then_routeAt _ _ _ _ _ _ _ Hhandle Hregs) as HR.
    split; [by apply findRoute_exact|]. split.
    + intros x root Hne Hroot Hfree.
      assert (fst (fst (findRoute r2 method [""; x])) = R ∧
              snd (findRoute r2 method [""; x]) = [x]) as Hx.
      { unfold routeAt, subrouterAt in HR. unfold findRoute. rewrite Hroot in *.
        destruct (nodeAt root (segments (Split "/*"))) as [n|] eqn:Hn; [|done].
        apply (findLoop_substitute root (Split "/*") [x] [""; x] _ _ [] n R);
          [done|done|done|by repeat constructor|].
        change (Split "/*") with [""; "*"]. simpl. by rewrite Hfree. }
      split; [done|]. intros Hx1.
      change (Split ("/" +:+ x)) with ("" :: Split x). by rewrite Hx1.
    + intros R'. apply Handle_panics. by rewrite HR.
  - intros sr tmp rest rt erh args Htmp. by apply findLoop_literal.
Qed.

End properties.

(** * Properties of configurations and of requests *)

Section configuration.
Context `{GoLib}.

Implicit Types (sr tmp : subrouter) (r : Router) (rt : Route) (erh : ErrorHandler).
Implicit Types (ort : option Route) (oerh : option ErrorHandler).
Implicit Types (args pathParts keys : list string) (pathPart method url : string).
Implicit Types (reg : registration) (regs : list registration).
Implicit Types (place : string * list string).

(** ** A registration changes one slot of one node *)

Lemma sameSlots_refl n : sameSlots n n.
Proof. by repeat split. Qed.

Lemma sameSlots_trans n1 n2 n3 : sameSlots n1 n2 → sameSlots n2 n3 → sameSlots n1 n3.
Proof. intros (?&?&?) (?&?&?). repeat split; congruence. Qed.

Lemma sameSlots_isSet n n' k : sameSlots n n' → isSet n k = isSet n' k.
Proof. intros (Hrt & Hdef & Herr). destruct k; simpl; by rewrite ?Hrt, ?Hdef, ?Herr. Qed.

(** What is at the other keys of the trie after the loop of
    [insertSubrouter] has the slots it had before. *)
Lemma insertLoop_frame sr keys reg sr' keys' :
  Forall (λ key, key ≠ "") keys →
  insertLoop sr keys (useOf reg) = Done sr' →
  keys' ≠ keys →
  sameSlots (terminal sr' keys') (terminal sr keys').
Proof.
  intros Hkeys. revert sr sr' keys'.
  induction Hkeys as [|key keys Hkey _ IH]; intros sr sr' keys'.
  - simpl. intros Huse Hne. destruct keys' as [|key' keys']; [done|].
    rewrite !terminal_cons, (useOf_children _ _ _ Huse). apply sameSlots_refl.
  - rewrite insertLoop_cons by done.
    destruct (insertLoop _ keys (useOf reg)) as [tmp'|msg] eqn:Htmp; [|done].
    intros [= <-] Hne. destruct keys' as [|key' keys'].
    { unfold terminal. simpl. by repeat split. }
    rewrite !terminal_cons. cbn [children withChildren].
    destruct (decide (key = key')) as [<-|Hother].
    + rewrite lookup_insert_eq. cbn [default from_option id].
      apply (IH _ _ _ Htmp). congruence.
    + rewrite lookup_insert_ne by done. apply sameSlots_refl.
Qed.

Lemma terminal_nodeAt sr keys n : nodeAt sr keys = Some n → terminal sr keys = n.
Proof. unfold terminal. by intros ->. Qed.

Lemma terminalAt_nodeOf r method url :
  terminalAt r method url = nodeOf r (ToLower method, segments (Split url)).
Proof. reflexivity. Qed.

(** A registration that returns has done at its place what it does with
    the node, and has left the slots of every other place. *)
Lemma register_nodeOf r reg :
  match register r reg with
  | Done r' =>
      ∃ n', useOf reg (nodeOf r (placeOf reg)) = Done n' ∧
            nodeOf r' (placeOf reg) = n' ∧
            ∀ place, place ≠ placeOf reg → sameSlots (nodeOf r' place) (nodeOf r place)
  | Panic msg => useOf reg (nodeOf r (placeOf reg)) = Panic msg
  end.
Proof.
  rewrite register_insertSubrouter.
  pose proof (insertSubrouter_outcome r (methodOf reg) (urlOf reg) (useOf reg)) as Hout.
  rewrite terminalAt_nodeOf in Hout. fold (placeOf reg) in Hout.
  destruct (insertSubrouter r _ _ _) as [r'|msg] eqn:Hins; [|done].
  destruct Hout as (n' & Huse & Hn'). exists n'. split_and!; [done|..].
  - unfold subrouterAt in Hn'. unfold nodeOf, placeOf. cbn [fst snd].
    destruct (Router_children r' !! ToLower (methodOf reg)) as [sr'|]; [|done].
    by apply terminal_nodeAt.
  - intros [key keys] Hne. unfold nodeOf. cbn [fst snd].
    unfold insertSubrouter in Hins.
    destruct (insertLoop _ (Split (urlOf reg)) (useOf reg)) as [sr'|msg] eqn:Hloop; [|done].
    simplify_eq. cbn [Router_children].
    destruct (decide (ToLower (methodOf reg) = key)) as [<-|Hkey].
    + rewrite lookup_insert_eq. cbn [default from_option id].
      rewrite insertLoop_segments in Hloop.
      apply (insertLoop_frame _ _ _ _ _ (segments_nonempty _) Hloop).
      unfold placeOf in Hne. congruence.
    + rewrite lookup_insert_ne by done. apply sameSlots_refl.
Qed.

Lemma useOf_isSet reg n :
  match useOf reg n with
  | Done n' =>
      isSet n (slotOf reg) = false ∧
      ∀ k, isSet n' k =
           if decide (k = slotOf reg) then bool_decide (givesHandler reg) else isSet n k
  | Panic msg => isSet n (slotOf reg) = true
  end.
Proof.
  destruct reg as [m u [h|]|m u [h|]|m u [h|]]; simpl;
    unfold setRoute, setDefaultRoute, setErrorHandler.
  - destruct (route n) eqn:Hslot; [done|]. split; [done|]. by intros []; simpl; rewrite ?Hslot.
  - destruct (route n) eqn:Hslot; [done|]. split; [done|]. by intros []; simpl; rewrite ?Hslot.
  - destruct (defaultRoute n) eqn:Hslot; [done|]. split; [done|]. by intros []; simpl; rewrite ?Hslot.
  - destruct (defaultRoute n) eqn:Hslot; [done|]. split; [done|]. by intros []; simpl; rewrite ?Hslot.
  - destruct (errorHandler n) eqn:Hslot; [done|]. split; [done|]. by intros []; simpl; rewrite ?Hslot.
  - destruct (errorHandler n) eqn:Hslot; [done|]. split; [done|]. by intros []; simpl; rewrite ?Hslot.
Qed.

(** Whether a registration returns, and which slots are set after it. *)
Lemma register_isSet r reg :
  match register r reg with
  | Done r' =>
      isSet (nodeOf r (placeOf reg)) (slotOf reg) = false ∧
      ∀ place k,
        isSet (nodeOf r' place) k =
        if decide ((place, k) = targetOf reg) then bool_decide (givesHandler reg)
        else isSet (nodeOf r place) k
  | Panic msg => isSet (nodeOf r (placeOf reg)) (slotOf reg) = true
  end.
Proof.
  pose proof (register_nodeOf r reg) as Hnode.
  pose proof (useOf_isSet reg (nodeOf r (placeOf reg))) as Huse.
  destruct (register r reg) as [r'|msg].
  - destruct Hnode as (n' & Hn' & Hat & Hframe). rewrite Hn' in Huse.
    destruct Huse as [Hunset Hafter]. split; [done|]. intros place k.
    destruct (decide (place = placeOf reg)) as [->|Hne].
    + rewrite Hat, Hafter. unfold targetOf. repeat case_decide; naive_solver.
    + rewrite (sameSlots_isSet _ _ k (Hframe _ Hne)).
      rewrite decide_False; [done|unfold targetOf; congruence].
  - by rewrite Hnode in Huse.
Qed.


Lemma nodeOf_slots r method url :
  route (nodeOf r (ToLower method, segments (Split url))) = routeAt r method url ∧
  defaultRoute (nodeOf r (ToLower method, segments (Split url))) =
    defaultRouteAt r method url ∧
  errorHandler (nodeOf r (ToLower method, segments (Split url))) =
    errorHandlerAt r method url.
Proof. apply terminalAt_slots. Qed.

(** X1: a registration that returns leaves the three slots of every other
    place as they were, whether or not the place had a node before. *)
Theorem registration_frame r reg r' method url :
  register r reg = Done r' →
  (ToLower method, segments (Split url)) ≠ placeOf reg →
  routeAt r' method url = routeAt r method url ∧
  defaultRouteAt r' method url = defaultRouteAt r method url ∧
  errorHandlerAt r' method url = errorHandlerAt r method url.
Proof.
  intros Hreg Hne. pose proof (register_nodeOf r reg) as Hnode. rewrite Hreg in Hnode.
  destruct Hnode as (_ & _ & _ & Hframe).
  destruct (Hframe _ Hne) as (Hrt & Hdef & Herr).
  destruct (nodeOf_slots r method url) as (<- & <- & <-).
  by destruct (nodeOf_slots r' method url) as (<- & <- & <-).
Qed.

(** ** When a configuration is accepted *)

Lemma registerAll_returns r regs :
  (∃ r', registerAll r regs = Done r') ↔
  noneAfterHandler regs ∧
  Forall (λ reg, isSet (nodeOf r (placeOf reg)) (slotOf reg) = false) regs.
Proof.
  revert r. induction regs as [|reg regs IH]; intros r.
  { simpl. split; [|by eauto]. intros _. split; [done|constructor]. }
  rewrite registerAll_cons, Forall_cons. cbn [noneAfterHandler].
  pose proof (register_isSet r reg) as Hreg.
  destruct (register r reg) as [r1|msg].
  - destruct Hreg as [Hunset Hafter]. rewrite IH. split.
    + intros [Hnone Hall]. rewrite Forall_forall in Hall. split_and!; [|done|done|].
      * intros Hgives (reg' & Htarget & Hin)%list_elem_of_fmap.
        specialize (Hall _ Hin). rewrite Hafter in Hall.
        rewrite decide_True in Hall by (by rewrite Htarget).
        by rewrite bool_decide_eq_true_2 in Hall.
      * apply Forall_forall. intros reg' Hin. specialize (Hall _ Hin). simpl in Hall.
        rewrite Hafter in Hall. case_decide as Htarget; [|done].
        pose proof (f_equal fst Htarget) as Hplace.
        pose proof (f_equal snd Htarget) as Hslot. simpl in Hplace, Hslot.
        by rewrite Hplace, Hslot.
    + intros [[Hnotin Hnone] [_ Hall]]. split; [done|].
      rewrite Forall_forall in Hall. apply Forall_forall. intros reg' Hin.
      rewrite Hafter. case_decide as Htarget; [|by apply Hall].
      apply bool_decide_eq_false_2. intros Hgives.
      apply (Hnotin Hgives), list_elem_of_fmap. by exists reg'.
  - split; [by intros [? ?]|]. intros [_ [Hunset _]]. congruence.
Qed.

(** Among registrations that all give a handler, none comes after one for
    its slot exactly when no two are for the same slot of the same place. *)
Lemma noneAfterHandler_NoDup regs :
  Forall givesHandler regs → noneAfterHandler regs ↔ NoDup (targetOf <$> regs).
Proof.
  induction 1 as [|reg regs Hgives _ IH]; [by split; [constructor|]|].
  rewrite fmap_cons, NoDup_cons. cbn [noneAfterHandler]. rewrite IH.
  split; intros [Hnotin Hdup]; (split; [|done]); auto.
Qed.

Lemma nodeOf_NewRouter place k : isSet (nodeOf NewRouter place) k = false.
Proof.
  unfold nodeOf, NewRouter. cbn [Router_children]. rewrite lookup_empty.
  unfold terminal. cbn [default from_option id].
  destruct (nodeAt newSubrouter (snd place)) as [n|] eqn:Hn; [|by destruct k].
  apply nodeAt_new in Hn as ->. by destruct k.
Qed.


(** ** The slots after a configuration *)

Lemma register_slots r reg r1 place :
  register r reg = Done r1 →
  route (nodeOf r1 place) =
    match route (nodeOf r place) with
    | Some rt => Some rt
    | None => registeredRoute [reg] place
    end ∧
  defaultRoute (nodeOf r1 place) =
    match defaultRoute (nodeOf r place) with
    | Some rt => Some rt
    | None => registeredDefaultRoute [reg] place
    end ∧
  errorHandler (nodeOf r1 place) =
    match errorHandler (nodeOf r place) with
    | Some erh => Some erh
    | None => registeredErrorHandler [reg] place
    end.
Proof.
  intros Hreg. pose proof (register_nodeOf r reg) as Hnode. rewrite Hreg in Hnode.
  destruct Hnode as (n' & Huse & Hat & Hframe).
  destruct (decide (place = placeOf reg)) as [->|Hne].
  - rewrite Hat. clear Hat Hframe Hreg.
    destruct reg as [m u [h|]|m u [h|]|m u [h|]]; simpl in *;
      unfold setRoute, setDefaultRoute, setErrorHandler in Huse;
      rewrite ?decide_True by done.
    1,2: destruct (route (nodeOf r _)); simplify_eq; simpl;
      by destruct (defaultRoute _), (errorHandler _).
    1,2: destruct (defaultRoute (nodeOf r _)); simplify_eq; simpl;
      by destruct (route _), (errorHandler _).
    1,2: destruct (errorHandler (nodeOf r _)); simplify_eq; simpl;
      by destruct (route _), (defaultRoute _).
  - destruct (Hframe _ Hne) as (-> & -> & ->).
    destruct reg as [m u [h|]|m u [h|]|m u [h|]]; simpl; rewrite ?decide_False by done;
      by destruct (route _), (defaultRoute _), (errorHandler _).
Qed.

Lemma registeredRoute_cons reg regs place :
  registeredRoute (reg :: regs) place =
  match registeredRoute [reg] place with
  | Some rt => Some rt
  | None => registeredRoute regs place
  end.
Proof. destruct reg as [m u [h|]|m u [h|]|m u [h|]]; simpl; try case_decide; done. Qed.

Lemma registeredDefaultRoute_cons reg regs place :
  registeredDefaultRoute (reg :: regs) place =
  match registeredDefaultRoute [reg] place with
  | Some rt => Some rt
  | None => registeredDefaultRoute regs place
  end.
Proof. destruct reg as [m u [h|]|m u [h|]|m u [h|]]; simpl; try case_decide; done. Qed.

Lemma registeredErrorHandler_cons reg regs place :
  registeredErrorHandler (reg :: regs) place =
  match registeredErrorHandler [reg] place with
  | Some erh => Some erh
  | None => registeredErrorHandler regs place
  end.
Proof. destruct reg as [m u [h|]|m u [h|]|m u [h|]]; simpl; try case_decide; done. Qed.

(** After a configuration a slot holds what it held before or, if it was
    not set, what the first registration for it gave. *)
Lemma registerAll_slots r regs r' place :
  registerAll r regs = Done r' →
  route (nodeOf r' place) =
    match route (nodeOf r place) with
    | Some rt => Some rt
    | None => registeredRoute regs place
    end ∧
  defaultRoute (nodeOf r' place) =
    match defaultRoute (nodeOf r place) with
    | Some rt => Some rt
    | None => registeredDefaultRoute regs place
    end ∧
  errorHandler (nodeOf r' place) =
    match errorHandler (nodeOf r place) with
    | Some erh => Some erh
    | None => registeredErrorHandler regs place
    end.
Proof.
  revert r. induction regs as [|reg regs IH]; intros r.
  { intros [= <-]. simpl.
    by destruct (route _), (defaultRoute _), (errorHandler _). }
  rewrite registerAll_cons.
  destruct (register r reg) as [r1|msg] eqn:Hreg; [|done].
  intros Hrest. destruct (IH _ Hrest) as (-> & -> & ->).
  destruct (register_slots _ _ _ place Hreg) as (-> & -> & ->).
  rewrite (registeredRoute_cons reg regs), (registeredDefaultRoute_cons reg regs),
    (registeredErrorHandler_cons reg regs).
  split_and!.
  - by destruct (route (nodeOf r place)), (registeredRoute [reg] place).
  - by destruct (defaultRoute (nodeOf r place)), (registeredDefaultRoute [reg] place).
  - by destruct (errorHandler (nodeOf r place)), (registeredErrorHandler [reg] place).
Qed.

Lemma nodeOf_NewRouter_slots place :
  route (nodeOf NewRouter place) = None ∧
  defaultRoute (nodeOf NewRouter place) = None ∧
  errorHandler (nodeOf NewRouter place) = None.
Proof.
  pose proof (nodeOf_NewRouter place RouteSlot) as Hrt.
  pose proof (nodeOf_NewRouter place DefaultRouteSlot) as Hdef.
  pose proof (nodeOf_NewRouter place ErrorHandlerSlot) as Herr.
  simpl in *.
  by destruct (route _), (defaultRoute _), (errorHandler _).
Qed.

(** What a slot was given is the handler of a registration of the list. *)
Lemma registered_elem_of regs place :
  (∀ rt, registeredRoute regs place = Some rt →
     ∃ method url, DoHandle method url (Some rt) ∈ regs ∧
                   placeOf (DoHandle method url (Some rt)) = place) ∧
  (∀ rt, registeredDefaultRoute regs place = Some rt →
     ∃ method url, DoSetDefault method url (Some rt) ∈ regs ∧
                   placeOf (DoSetDefault method url (Some rt)) = place) ∧
  (∀ erh, registeredErrorHandler regs place = Some erh →
     ∃ method url, DoSetErrorHandler method url (Some erh) ∈ regs ∧
                   placeOf (DoSetErrorHandler method url (Some erh)) = place).
Proof.
  induction regs as [|reg regs (IHrt & IHdef & IHerr)]; [done|].
  split_and!; intros h; destruct reg as [m u [h'|]|m u [h'|]|m u [h'|]]; simpl;
    try case_decide; intros Hfound; simplify_eq;
    try (by exists m, u; split; [left|]);
    first [destruct (IHrt _ Hfound) as (m' & u' & ? & ?)
          |destruct (IHdef _ Hfound) as (m' & u' & ? & ?)
          |destruct (IHerr _ Hfound) as (m' & u' & ? & ?)];
    (exists m', u'; split; [by right|done]).
Qed.

(** In a list where no registration comes after one that gave a handler to
    its slot, every registration that gives a handler is the first to give
    one to its slot. *)
Lemma elem_of_registered regs :
  noneAfterHandler regs →
  (∀ method url rt, DoHandle method url (Some rt) ∈ regs →
     registeredRoute regs (placeOf (DoHandle method url (Some rt))) = Some rt) ∧
  (∀ method url rt, DoSetDefault method url (Some rt) ∈ regs →
     registeredDefaultRoute regs (placeOf (DoSetDefault method url (Some rt))) = Some rt) ∧
  (∀ method url erh, DoSetErrorHandler method url (Some erh) ∈ regs →
     registeredErrorHandler regs (placeOf (DoSetErrorHandler method url (Some erh))) =
       Some erh).
Proof.
  induction regs as [|reg regs IH]; intros Hnone.
  { split_and!; intros ? ? ? Hin; by apply elem_of_nil in Hin. }
  cbn [noneAfterHandler] in Hnone. destruct Hnone as [Hnotin Hnone].
  destruct (IH Hnone) as (IHrt & IHdef & IHerr).
  split_and!; intros m u h [<-|Hin]%elem_of_cons;
    cbn [registeredRoute registeredDefaultRoute registeredErrorHandler].
  all: try (by rewrite decide_True).
  all: destruct reg as [m' u' [h'|]|m' u' [h'|]|m' u' [h'|]];
    cbn [registeredRoute registeredDefaultRoute registeredErrorHandler];
    try case_decide as Hplace; eauto.
  all: exfalso; apply Hnotin; [by eexists|]; apply list_elem_of_fmap;
    eexists; (split; [|exact Hin]);
    unfold targetOf; cbn [slotOf]; by rewrite Hplace.
Qed.


(** X2: a configuration is accepted, that is, its registrations all return,
    exactly when none of them comes after one that gave a handler to the
    same slot of the same place (the same lower-cased method and the same
    non-empty segments) and none is for a slot the router has set already;
    on a new router the first condition is the whole of it.  When every
    registration gives a handler, the first condition says that no two
    registrations are for the same slot of the same place. *)
Theorem configuration_accepted r regs :
  ((∃ r', registerAll r regs = Done r') ↔
   noneAfterHandler regs ∧
   Forall (λ reg, isSet (nodeOf r (placeOf reg)) (slotOf reg) = false) regs) ∧
  ((∃ r', registerAll NewRouter regs = Done r') ↔ noneAfterHandler regs) ∧
  (Forall givesHandler regs →
   ((∃ r', registerAll r regs = Done r') ↔
    NoDup (targetOf <$> regs) ∧
    Forall (λ reg, isSet (nodeOf r (placeOf reg)) (slotOf reg) = false) regs) ∧
   ((∃ r', registerAll NewRouter regs = Done r') ↔ NoDup (targetOf <$> regs))).
Proof.
  assert ((∃ r', registerAll NewRouter regs = Done r') ↔ noneAfterHandler regs) as Hnew.
  { rewrite registerAll_returns. split; [by intros [? _]|].
    intros Hnone. split; [done|]. apply Forall_forall. intros reg _.
    apply nodeOf_NewRouter. }
  split_and!; [apply registerAll_returns|done|].
  intros Hgive. rewrite <-(noneAfterHandler_NoDup regs Hgive).
  split; [apply registerAll_returns|done].
Qed.

(** X3: in the router a configuration builds from a new one, a slot of a
    place holds a handler exactly when the configuration has a registration
    of that handler for that slot under a method with the same lower-cased
    form and a path with the same non-empty segments. *)
Theorem configuration_round_trip regs r method url :
  registerAll NewRouter regs = Done r →
  (∀ rt, routeAt r method url = Some rt ↔
     ∃ m u, DoHandle m u (Some rt) ∈ regs ∧ ToLower m = ToLower method ∧
            segments (Split u) = segments (Split url)) ∧
  (∀ rt, defaultRouteAt r method url = Some rt ↔
     ∃ m u, DoSetDefault m u (Some rt) ∈ regs ∧ ToLower m = ToLower method ∧
            segments (Split u) = segments (Split url)) ∧
  (∀ erh, errorHandlerAt r method url = Some erh ↔
     ∃ m u, DoSetErrorHandler m u (Some erh) ∈ regs ∧ ToLower m = ToLower method ∧
            segments (Split u) = segments (Split url)).
Proof.
  intros Hregs.
  destruct (registerAll_slots _ _ _ (ToLower method, segments (Split url)) Hregs)
    as (Hrt & Hdef & Herr).
  destruct (nodeOf_NewRouter_slots (ToLower method, segments (Split url)))
    as (Hrt0 & Hdef0 & Herr0).
  rewrite Hrt0 in Hrt. rewrite Hdef0 in Hdef. rewrite Herr0 in Herr.
  destruct (nodeOf_slots r method url) as (Hrt' & Hdef' & Herr').
  rewrite Hrt' in Hrt. rewrite Hdef' in Hdef. rewrite Herr' in Herr.
  rewrite Hrt, Hdef, Herr.
  destruct (registered_elem_of regs (ToLower method, segments (Split url)))
    as (Hin_rt & Hin_def & Hin_err).
  assert (noneAfterHandler regs) as Hdup
    by (apply (proj1 (registerAll_returns NewRouter regs)); eauto).
  destruct (elem_of_registered regs Hdup) as (Hfirst_rt & Hfirst_def & Hfirst_err).
  split_and!; intros h; split.
  - intros (m & u & Hin & [= ? ?])%Hin_rt. eauto.
  - intros (m & u & Hin & Hm & Hu). rewrite <-(Hfirst_rt _ _ _ Hin).
    unfold placeOf. simpl. by rewrite Hm, Hu.
  - intros (m & u & Hin & [= ? ?])%Hin_def. eauto.
  - intros (m & u & Hin & Hm & Hu). rewrite <-(Hfirst_def _ _ _ Hin).
    unfold placeOf. simpl. by rewrite Hm, Hu.
  - intros (m & u & Hin & [= ? ?])%Hin_err. eauto.
  - intros (m & u & Hin & Hm & Hu). rewrite <-(Hfirst_err _ _ _ Hin).
    unfold placeOf. simpl. by rewrite Hm, Hu.
Qed.

(** ** What [findRoute] can return *)

Lemma findLoop_slots (PR : Route → Prop) (PE : ErrorHandler → Prop)
    sr pathParts rt erh args :
  (∀ keys rt', route (terminal sr keys) = Some rt' → PR rt') →
  (∀ keys rt', defaultRoute (terminal sr keys) = Some rt' → PR rt') →
  (∀ keys erh', errorHandler (terminal sr keys) = Some erh' → PE erh') →
  PR rt → PE erh →
  PR (fst (fst (findLoop sr pathParts rt erh args))) ∧
  PE (snd (fst (findLoop sr pathParts rt erh args))).
Proof.
  revert sr rt erh args.
  induction pathParts as [|pathPart rest IH]; intros sr rt erh args Hrt Hdef Herr Hrt0 Herh0.
  { simpl. split; [|done]. specialize (Hrt []). unfold terminal in Hrt. simpl in Hrt.
    destruct (route sr); simpl; auto. }
  assert (PR (inherit (defaultRoute sr) rt)) as Hrt1.
  { specialize (Hdef []). unfold terminal in Hdef. simpl in Hdef.
    destruct (defaultRoute sr); simpl; auto. }
  assert (PE (inherit (errorHandler sr) erh)) as Herh1.
  { specialize (Herr []). unfold terminal in Herr. simpl in Herr.
    destruct (errorHandler sr); simpl; auto. }
  assert (∀ key tmp, children sr !! key = Some tmp →
    ∀ keys, terminal tmp keys = terminal sr (key :: keys)) as Hchild.
  { intros key tmp Htmp keys. by rewrite terminal_cons, Htmp. }
  simpl. case_decide; [by apply IH|].
  destruct (children sr !! pathPart) as [tmp|] eqn:Htmp.
  { apply IH; try done; intros keys ?; rewrite (Hchild _ _ Htmp); eauto. }
  destruct (children sr !! "*") as [tmp|] eqn:Hwild; [|done].
  apply IH; try done; intros keys ?; rewrite (Hchild _ _ Hwild); eauto.
Qed.

Lemma findRoute_provenance regs r method pathParts :
  registerAll NewRouter regs = Done r →
  (fst (fst (findRoute r method pathParts)) = nullRoute ∨
   ∃ m u, ToLower m = ToLower method ∧
     (DoHandle m u (Some (fst (fst (findRoute r method pathParts)))) ∈ regs ∨
      DoSetDefault m u (Some (fst (fst (findRoute r method pathParts)))) ∈ regs)) ∧
  (snd (fst (findRoute r method pathParts)) = nullErrorHandler ∨
   ∃ m u, ToLower m = ToLower method ∧
     DoSetErrorHandler m u (Some (snd (fst (findRoute r method pathParts)))) ∈ regs).
Proof.
  intros Hregs. unfold findRoute.
  destruct (Router_children r !! ToLower method) as [sr|] eqn:Hsr; [|by split; left].
  assert (∀ keys, terminal sr keys = nodeOf r (ToLower method, keys)) as Hnode.
  { intros keys. unfold nodeOf. cbn [fst snd]. by rewrite Hsr. }
  set (PR := λ rt : Route, rt = nullRoute ∨
    ∃ m u, ToLower m = ToLower method ∧
      (DoHandle m u (Some rt) ∈ regs ∨ DoSetDefault m u (Some rt) ∈ regs)).
  set (PE := λ erh : ErrorHandler, erh = nullErrorHandler ∨
    ∃ m u, ToLower m = ToLower method ∧ DoSetErrorHandler m u (Some erh) ∈ regs).
  assert (∀ keys rt', route (terminal sr keys) = Some rt' → PR rt') as Hrt.
  { intros keys rt'. rewrite Hnode.
    destruct (registerAll_slots _ _ _ (ToLower method, keys) Hregs) as (-> & _ & _).
    destruct (nodeOf_NewRouter_slots (ToLower method, keys)) as (-> & _ & _).
    intros (m & u & Hin & [= ? ?])%(proj1 (registered_elem_of regs _)).
    right. eauto 6. }
  assert (∀ keys rt', defaultRoute (terminal sr keys) = Some rt' → PR rt') as Hdef.
  { intros keys rt'. rewrite Hnode.
    destruct (registerAll_slots _ _ _ (ToLower method, keys) Hregs) as (_ & -> & _).
    destruct (nodeOf_NewRouter_slots (ToLower method, keys)) as (_ & -> & _).
    intros (m & u & Hin & [= ? ?])%(proj1 (proj2 (registered_elem_of regs _))).
    right. eauto 6. }
  assert (∀ keys erh', errorHandler (terminal sr keys) = Some erh' → PE erh') as Herr.
  { intros keys erh'. rewrite Hnode.
    destruct (registerAll_slots _ _ _ (ToLower method, keys) Hregs) as (_ & _ & ->).
    destruct (nodeOf_NewRouter_slots (ToLower method, keys)) as (_ & _ & ->).
    intros (m & u & Hin & [= ? ?])%(proj2 (proj2 (registered_elem_of regs _))).
    right. eauto 6. }
  apply (findLoop_slots PR PE); try done.
  - specialize (Hdef []). unfold terminal in Hdef. simpl in Hdef.
    destruct (defaultRoute sr); simpl; [auto|by left].
  - specialize (Herr []). unfold terminal in Herr. simpl in Herr.
    destruct (errorHandler sr); simpl; [auto|by left].
Qed.

(** X4: [findRoute] gives out no handler of its own making: the route is
    the built-in one or a route registered with [Handle] or [SetDefault]
    under a method with the same lower-cased form, and the error handler is
    the built-in one or one registered with [SetErrorHandler] under such a
    method. *)
Theorem findRoute_returns_registered regs r method pathParts :
  registerAll NewRouter regs = Done r →
  (fst (fst (findRoute r method pathParts)) = nullRoute ∨
   ∃ m u, ToLower m = ToLower method ∧
     (DoHandle m u (Some (fst (fst (findRoute r method pathParts)))) ∈ regs ∨
      DoSetDefault m u (Some (fst (fst (findRoute r method pathParts)))) ∈ regs)) ∧
  (snd (fst (findRoute r method pathParts)) = nullErrorHandler ∨
   ∃ m u, ToLower m = ToLower method ∧
     DoSetErrorHandler m u (Some (snd (fst (findRoute r method pathParts)))) ∈ regs).
Proof. apply findRoute_provenance. Qed.


(** ** What a walk that ends on a node says of the request *)

Lemma walkPrefix_instance sr pathParts rt erh args st :
  walkPrefix sr pathParts rt erh args = Some st →
  "*" ∉ pathParts →
  ∃ keys values,
    nodeAt sr keys = Some (walk_sr st) ∧
    walk_args st = args ++ values ∧
    substitute keys values = Some (segments pathParts).
Proof.
  revert sr rt erh args.
  induction pathParts as [|pathPart rest IH]; intros sr rt erh args Hwalk Hstar.
  { simpl in Hwalk. simplify_eq. exists [], []. by rewrite app_nil_r. }
  apply not_elem_of_cons in Hstar as [Hstar Hrest].
  rewrite segments_cons. simpl in Hwalk. case_decide; [by eapply IH|].
  destruct (children sr !! pathPart) as [tmp|] eqn:Htmp.
  - destruct (IH _ _ _ _ Hwalk Hrest) as (keys & values & Hnode & Hargs & Hsubst).
    exists (pathPart :: keys), values. split_and!; [|done|].
    + simpl. by rewrite Htmp.
    + simpl. rewrite decide_False by done. by rewrite Hsubst.
  - destruct (children sr !! "*") as [tmp|] eqn:Hwild; [|done].
    destruct (IH _ _ _ _ Hwalk Hrest) as (keys & values & Hnode & Hargs & Hsubst).
    exists ("*" :: keys), (pathPart :: values). split_and!.
    + simpl. by rewrite Hwild.
    + by rewrite Hargs, <-app_assoc.
    + simpl. by rewrite Hsubst.
Qed.

(** X5: when the walk of a request with no segment "*" goes through all its
    segments and ends on a node that has a route, [findRoute] returns that
    route with the arguments gathered, and the route was registered with
    [Handle] at a path of which the request is an instance: putting the
    arguments, in order, at the wildcard segments of the registered path
    gives the non-empty segments of the request. *)
Theorem findRoute_match_sound regs r method root pathParts st R :
  registerAll NewRouter regs = Done r →
  Router_children r !! ToLower method = Some root →
  walkPrefix root pathParts (inherit (defaultRoute root) nullRoute)
    (inherit (errorHandler root) nullErrorHandler) [] = Some st →
  "*" ∉ pathParts →
  route (walk_sr st) = Some R →
  findRoute r method pathParts = (R, walk_erh st, walk_args st) ∧
  ∃ m u, DoHandle m u (Some R) ∈ regs ∧ ToLower m = ToLower method ∧
         substitute (segments (Split u)) (walk_args st) = Some (segments pathParts).
Proof.
  intros Hregs Hroot Hwalk Hstar HR. split.
  { unfold findRoute. rewrite Hroot.
    rewrite <-(app_nil_r pathParts) at 1. rewrite findLoop_app, Hwalk. simpl.
    by rewrite HR. }
  destruct (walkPrefix_instance _ _ _ _ _ _ Hwalk Hstar) as (keys & values & Hnode & Hargs & Hsubst).
  simpl in Hargs. rewrite Hargs.
  destruct (registerAll_slots _ _ _ (ToLower method, keys) Hregs) as (Hrt & _ & _).
  destruct (nodeOf_NewRouter_slots (ToLower method, keys)) as (Hrt0 & _ & _).
  rewrite Hrt0 in Hrt. unfold nodeOf in Hrt. cbn [fst snd] in Hrt.
  rewrite Hroot in Hrt. cbn [default from_option id] in Hrt.
  rewrite (terminal_nodeAt _ _ _ Hnode), HR in Hrt. symmetry in Hrt.
  apply (proj1 (registered_elem_of regs _)) in Hrt as (m & u & Hin & [= Hm Hu]).
  exists m, u. by rewrite Hu.
Qed.

(** ** Arguments *)

Lemma findLoop_args sr pathParts rt erh args :
  ∃ values, snd (findLoop sr pathParts rt erh args) = args ++ values ∧
            values `sublist_of` segments pathParts.
Proof.
  revert sr rt erh args.
  induction pathParts as [|pathPart rest IH]; intros sr rt erh args.
  { exists []. by rewrite app_nil_r. }
  rewrite segments_cons. simpl. case_decide; [apply IH|].
  destruct (children sr !! pathPart) as [tmp|].
  { destruct (IH tmp (inherit (defaultRoute sr) rt) (inherit (errorHandler sr) erh) args)
      as (values & -> & Hsub).
    exists values. split; [done|]. by apply sublist_cons. }
  destruct (children sr !! "*") as [tmp|].
  - destruct (IH tmp (inherit (defaultRoute sr) rt) (inherit (errorHandler sr) erh)
      (args ++ [pathPart])) as (values & -> & Hsub).
    exists (pathPart :: values). rewrite <-app_assoc. split; [done|]. by apply sublist_skip.
  - exists []. rewrite app_nil_r. split; [done|]. apply sublist_nil_l.
Qed.

(** X6: the arguments [findRoute] returns are segments of the request, in
    the order of the request and each used at most once; none is empty,
    and there are no more of them than non-empty segments. *)
Theorem findRoute_args r method pathParts :
  snd (findRoute r method pathParts) `sublist_of` segments pathParts ∧
  Forall (λ arg, arg ≠ "") (snd (findRoute r method pathParts)) ∧
  (length (snd (findRoute r method pathParts)) ≤ length (segments pathParts))%nat.
Proof.
  assert (snd (findRoute r method pathParts) `sublist_of` segments pathParts) as Hsub.
  { unfold findRoute. destruct (Router_children r !! ToLower method) as [sr|].
    - destruct (findLoop_args sr pathParts (inherit (defaultRoute sr) nullRoute)
        (inherit (errorHandler sr) nullErrorHandler) []) as (values & -> & Hsub).
      done.
    - apply sublist_nil_l. }
  split_and!; [done|..].
  - apply Forall_forall. intros arg Harg.
    pose proof (segments_nonempty pathParts) as Hne. rewrite Forall_forall in Hne.
    eauto using elem_of_sublist.
  - by apply sublist_length.
Qed.

(** ** Empty segments in requests *)

Lemma findLoop_inherited sr pathParts rt erh args :
  pathParts ≠ [] →
  findLoop sr pathParts (inherit (defaultRoute sr) rt) (inherit (errorHandler sr) erh) args =
  findLoop sr pathParts rt erh args.
Proof. destruct pathParts; [done|]. intros _. simpl. by rewrite !inherit_idemp. Qed.

Lemma trimmed_cons pathPart rest :
  trimmed (pathPart :: rest) =
  if decide (pathPart = "") then
    match rest with [] => [""] | _ :: _ => trimmed rest end
  else pathPart :: trimmed rest.
Proof.
  unfold trimmed. rewrite segments_cons.
  destruct rest as [|pathPart' rest]; [by repeat case_decide; simplify_eq/=|].
  assert (last (pathPart :: pathPart' :: rest) = last (pathPart' :: rest)) as -> by done.
  by case_decide.
Qed.

Lemma findLoop_trimmed sr pathParts rt erh args :
  findLoop sr (trimmed pathParts) rt erh args = findLoop sr pathParts rt erh args.
Proof.
  revert sr rt erh args.
  induction pathParts as [|pathPart rest IH]; intros sr rt erh args; [done|].
  rewrite trimmed_cons. case_decide as Hempty.
  - subst pathPart. destruct rest as [|pathPart' rest]; [done|].
    rewrite IH, findLoop_skip. by rewrite findLoop_inherited.
  - simpl. rewrite !decide_False by done.
    destruct (children sr !! pathPart) as [tmp|]; [apply IH|].
    destruct (children sr !! "*") as [tmp|]; [apply IH|done].
Qed.

(** X7: the empty segments of a request, one at its end apart, make no
    difference: [findRoute] returns for a request what it returns for its
    non-empty segments, followed by one empty segment if the request ends
    with one.  So "//foo//bar" is answered as "/foo/bar" and "/foo//" as
    "/foo/". *)
Theorem findRoute_trimmed r method pathParts :
  findRoute r method pathParts = findRoute r method (trimmed pathParts).
Proof.
  unfold findRoute. destruct (Router_children r !! ToLower method); [|done].
  by rewrite findLoop_trimmed.
Qed.


(** ** Methods *)

Lemma register_other_method r reg r' key :
  register r reg = Done r' →
  ToLower (methodOf reg) ≠ key →
  Router_children r' !! key = Router_children r !! key.
Proof.
  rewrite register_insertSubrouter. unfold insertSubrouter.
  destruct (insertLoop _ _ _) as [sr'|msg]; intros [= <-] Hne.
  cbn [Router_children]. by rewrite lookup_insert_ne.
Qed.

(** X8: the tries of the methods are independent: registrations under
    methods with another lower-cased form leave the trie of a method as it
    is, and with it every answer of [findRoute] for that method. *)
Theorem other_methods_untouched r regs r' method pathParts :
  registerAll r regs = Done r' →
  Forall (λ reg, ToLower (methodOf reg) ≠ ToLower method) regs →
  Router_children r' !! ToLower method = Router_children r !! ToLower method ∧
  findRoute r' method pathParts = findRoute r method pathParts.
Proof.
  intros Hregs Hother.
  assert (Router_children r' !! ToLower method = Router_children r !! ToLower method) as Hsame.
  { revert r Hregs. induction Hother as [|reg regs Hreg _ IH]; intros r.
    - by intros [= <-].
    - rewrite registerAll_cons.
      destruct (register r reg) as [r1|msg] eqn:Hstep; [|done].
      intros Hrest. rewrite (IH _ Hrest). by eapply register_other_method. }
  split; [done|]. unfold findRoute. by rewrite Hsame.
Qed.

(** ** Dispatch without a registered error handler *)

(** X9: when the configuration has no [SetErrorHandler] under the method of
    a request, a failure of the route of that request is answered by
    [http.Error] with "Internal Server Error" and status 500, on the world
    as the route left it. *)
Theorem ServeHTTP_builtin_error_handler regs r req w er w' :
  registerAll NewRouter regs = Done r →
  Forall (λ reg, slotOf reg = ErrorHandlerSlot →
                 ToLower (methodOf reg) ≠ ToLower (Method req)) regs →
  fst (fst (findRoute r (Method req) (Split (URL_Path req)))) w req
    (snd (findRoute r (Method req) (Split (URL_Path req)))) = (Some er, w') →
  fst (snd (ServeHTTP r req (w, []))) = Error w' "Internal Server Error" 500 ∧
  errorHandlerCalls (callsOf r req w) = 1.
Proof.
  intros Hregs Hnone Hfail.
  destruct (findRoute_provenance regs r (Method req) (Split (URL_Path req)) Hregs)
    as [_ [Herh|(m & u & Hm & Hin)]].
  - unfold callsOf. rewrite ServeHTTP_run.
    destruct (findRoute r (Method req) (Split (URL_Path req))) as [[rt erh] args].
    simpl in *. rewrite Hfail. simpl. by rewrite Herh.
  - rewrite Forall_forall in Hnone. by destruct (Hnone _ Hin eq_refl).
Qed.

(** ** Handlers of a prefix *)

Lemma walkPrefix_literal sr pathParts rt erh args n :
  nodeAt sr (segments pathParts) = Some n →
  ∃ rt' erh', walkPrefix sr pathParts rt erh args = Some (Walk n rt' erh' args).
Proof.
  revert sr rt erh. induction pathParts as [|pathPart rest IH]; intros sr rt erh Hn.
  { simpl in *. simplify_eq. eauto. }
  rewrite segments_cons in Hn. simpl. case_decide; [by apply IH|].
  simpl in Hn. destruct (children sr !! pathPart) as [tmp|]; [by apply IH|done].
Qed.

(** The walk of a request that goes one segment beyond the path of a node:
    the slots of the node are taken, then the segment is looked up. *)
Lemma findLoop_one_beyond sr pathParts rt erh args n x :
  nodeAt sr (segments pathParts) = Some n →
  ∃ rt' erh',
    findLoop sr (pathParts ++ [x]) rt erh args =
    findLoop n [x] rt' erh' args.
Proof.
  intros Hn. destruct (walkPrefix_literal _ _ rt erh args _ Hn) as (rt' & erh' & Hwalk).
  exists rt', erh'. by rewrite findLoop_app, Hwalk.
Qed.

(** X10: the error handler registered at a path is the one [findRoute]
    returns for every request that goes one segment beyond that path,
    whatever the segment: empty (the path with a slash at its end), the key
    of a child, a value for a wildcard child, or a segment nothing matches;
    and whatever is registered afterwards. *)
Theorem errorHandler_one_beyond r method url (E : ErrorHandler) r1 regs r2 x :
  SetErrorHandler r method url (Some E) = Done r1 →
  registerAll r1 regs = Done r2 →
  snd (fst (findRoute r2 method (Split url ++ [x]))) = E.
Proof.
  intros Hset Hregs.
  pose proof (SetErrorHandler_outcome r method url (Some E)) as Hout. rewrite Hset in Hout.
  destruct Hout as (_ & HE & _).
  apply (errorHandlerAt_kept _ r2) in HE; [|by eapply registerAll_kept].
  unfold errorHandlerAt, subrouterAt in HE. unfold findRoute.
  destruct (Router_children r2 !! ToLower method) as [sr|]; [|done].
  destruct (nodeAt sr (segments (Split url))) as [n|] eqn:Hn; [|done].
  destruct (findLoop_one_beyond sr (Split url) (inherit (defaultRoute sr) nullRoute)
    (inherit (errorHandler sr) nullErrorHandler) [] n x Hn) as (rt' & erh' & ->).
  simpl. rewrite HE. case_decide; [done|].
  destruct (children n !! x); [done|]. by destruct (children n !! "*").
Qed.

(** X11: the default route registered at a path is the route [findRoute]
    returns for a request that goes one segment beyond that path and ends
    on no route: for the path with a slash at its end when the node of the
    path has no route, for a segment that matches no child of the node, and
    for a segment that leads to a child that has no route. *)
Theorem defaultRoute_one_beyond r method url (D : Route) r1 regs r2 :
  SetDefault r method url (Some D) = Done r1 →
  registerAll r1 regs = Done r2 →
  ∃ n, subrouterAt r2 method url = Some n ∧
    (route n = None → fst (fst (findRoute r2 method (Split url ++ [""]))) = D) ∧
    (∀ x, x ≠ "" → children n !! x = None → children n !! "*" = None →
       fst (fst (findRoute r2 method (Split url ++ [x]))) = D) ∧
    (∀ x tmp, x ≠ "" →
       children n !! x = Some tmp ∨
         (children n !! x = None ∧ children n !! "*" = Some tmp) →
       route tmp = None →
       fst (fst (findRoute r2 method (Split url ++ [x]))) = D).
Proof.
  intros Hset Hregs.
  pose proof (SetDefault_outcome r method url (Some D)) as Hout. rewrite Hset in Hout.
  destruct Hout as (_ & HD & _).
  apply (defaultRouteAt_kept _ r2) in HD; [|by eapply registerAll_kept].
  unfold defaultRouteAt, subrouterAt in *. unfold findRoute.
  destruct (Router_children r2 !! ToLower method) as [sr|]; [|done].
  destruct (nodeAt sr (segments (Split url))) as [n|] eqn:Hn; [|done].
  exists n. split; [done|].
  assert (∀ x, ∃ rt' erh',
    findLoop sr (Split url ++ [x]) (inherit (defaultRoute sr) nullRoute)
      (inherit (errorHandler sr) nullErrorHandler) [] = findLoop n [x] rt' erh' [])
    as Hbeyond by (intros x; by apply findLoop_one_beyond).
  split_and!.
  - intros Hroute. destruct (Hbeyond "") as (rt' & erh' & ->).
    simpl. by rewrite Hroute, HD.
  - intros x Hx Hlit Hwild. destruct (Hbeyond x) as (rt' & erh' & ->).
    simpl. rewrite decide_False by done. by rewrite Hlit, Hwild, HD.
  - intros x tmp Hx Hchild Hroute. destruct (Hbeyond x) as (rt' & erh' & ->).
    simpl. rewrite decide_False by done.
    destruct Hchild as [->|[-> ->]]; simpl; by rewrite Hroute, HD.
Qed.


(** ** A default route or error handler and the path it is registered at *)

Lemma useOf_route reg n n' :
  slotOf reg ≠ RouteSlot → useOf reg n = Done n' → route n' = route n.
Proof.
  destruct reg; simpl; [done|..]; intros _; unfold setDefaultRoute, setErrorHandler.
  - destruct (defaultRoute n); by intros [= <-].
  - destruct (errorHandler n); by intros [= <-].
Qed.

Lemma insertLoop_root_slots sr pathParts use sr' :
  segments pathParts ≠ [] →
  insertLoop sr pathParts use = Done sr' →
  sameSlots sr' sr.
Proof.
  rewrite insertLoop_segments. pose proof (segments_nonempty pathParts) as Hkeys.
  destruct Hkeys as [|key keys Hkey _]; [done|]. intros _.
  rewrite insertLoop_cons by done.
  destruct (insertLoop _ keys use); intros [= <-]. by repeat split.
Qed.

Lemma last_segments pathParts :
  pathParts ≠ [] → last pathParts ≠ Some "" → segments pathParts ≠ [].
Proof.
  induction pathParts as [|pathPart rest IH]; [done|]. intros _.
  rewrite segments_cons. destruct rest as [|pathPart' rest].
  - simpl. case_decide; [congruence|done].
  - intros Hlast. case_decide; [|done]. by apply IH.
Qed.

(** The walk along the path of a node that is there ends the same way
    after a registration for the default route or the error handler of that
    node, when the path does not end with an empty piece. *)
Lemma findLoop_insertLoop sr pathParts reg sr' rt erh args :
  slotOf reg ≠ RouteSlot →
  last pathParts ≠ Some "" →
  is_Some (nodeAt sr (segments pathParts)) →
  insertLoop sr pathParts (useOf reg) = Done sr' →
  findLoop sr' pathParts rt erh args = findLoop sr pathParts rt erh args.
Proof.
  intros Hslot. revert sr sr' rt erh args.
  induction pathParts as [|pathPart rest IH]; intros sr sr' rt erh args Hlast Hnode Hloop.
  { simpl in *. by rewrite (useOf_route _ _ _ Hslot Hloop). }
  assert (last rest ≠ Some "") as Hlast'.
  { destruct rest; [done|]. exact Hlast. }
  rewrite segments_cons in Hnode. simpl in Hloop. case_decide as Hempty.
  - subst pathPart. assert (rest ≠ []) as Hrest by (by intros ->).
    pose proof (insertLoop_root_slots _ _ _ _ (last_segments _ Hrest Hlast') Hloop) as Hsame.
    rewrite !findLoop_skip. destruct Hsame as (_ & -> & ->). by apply IH.
  - destruct Hnode as [n Hn]. simpl in Hn.
    destruct (children sr !! pathPart) as [tmp|] eqn:Htmp; [|done].
    simpl in Hloop.
    destruct (insertLoop tmp rest (useOf reg)) as [tmp'|msg] eqn:Htmp'; [|done].
    simplify_eq. simpl. rewrite !decide_False by done.
    rewrite lookup_insert_eq, Htmp. by apply IH.
Qed.

Lemma Split_nonempty url : Split url ≠ [].
Proof.
  destruct url as [|c url]; [done|]. simpl. case_decide; [done|].
  by destruct (Split url).
Qed.

Lemma register_exact_path r reg r' :
  slotOf reg ≠ RouteSlot →
  is_Some (subrouterAt r (methodOf reg) (urlOf reg)) →
  last (Split (urlOf reg)) ≠ Some "" →
  register r reg = Done r' →
  findRoute r' (methodOf reg) (Split (urlOf reg)) =
  findRoute r (methodOf reg) (Split (urlOf reg)).
Proof.
  intros Hslot Hnode Hlast. rewrite register_insertSubrouter.
  unfold insertSubrouter, subrouterAt, findRoute in *.
  destruct (Router_children r !! ToLower (methodOf reg)) as [sr|] eqn:Hsr;
    [|by destruct Hnode].
  cbn [default from_option id].
  destruct (insertLoop sr _ (useOf reg)) as [sr'|msg] eqn:Hloop; intros [= <-].
  cbn [Router_children]. rewrite lookup_insert_eq.
  pose proof (insertLoop_root_slots _ _ _ _
    (last_segments _ (Split_nonempty _) Hlast) Hloop) as (_ & -> & ->).
  by eapply findLoop_insertLoop.
Qed.

(** X12: a default route or an error handler registered at the path of a
    node that is already there, where the path is not empty and does not
    end with a slash, changes nothing for the request of exactly that path:
    the handler is for what lies beyond the node. *)
Theorem prefix_handler_not_for_exact_path r method url :
  is_Some (subrouterAt r method url) →
  last (Split url) ≠ Some "" →
  (∀ D r', SetDefault r method url D = Done r' →
     findRoute r' method (Split url) = findRoute r method (Split url)) ∧
  (∀ E r', SetErrorHandler r method url E = Done r' →
     findRoute r' method (Split url) = findRoute r method (Split url)).
Proof.
  intros Hnode Hlast. split.
  - intros D r' Hset. by apply (register_exact_path r (DoSetDefault method url D)).
  - intros E r' Hset. by apply (register_exact_path r (DoSetErrorHandler method url E)).
Qed.

(** ** Order and growth *)

(** X13: registrations that each give a handler and all return build the
    same router in any order, and such a configuration is accepted in one
    order exactly when it is in another.  With [nil] the order counts:
    [Handle] with [nil] and then with a route for the same method and path
    returns, and the other way round the second call panics. *)
Theorem registration_order_immaterial r regs regs' :
  (regs ≡ₚ regs' → Forall givesHandler regs →
   ∀ r', registerAll r regs = Done r' ↔ registerAll r regs' = Done r') ∧
  (∀ method url (rt : Route),
     routeAt r method url = None →
     (∃ r', registerAll r [DoHandle method url None; DoHandle method url (Some rt)] =
              Done r') ∧
     (∃ msg, registerAll r [DoHandle method url (Some rt); DoHandle method url None] =
               Panic msg)).
Proof.
  split.
  - intros Hperm Hgive r'. split; apply registerAll_Permutation; [done|done| |].
    + by symmetry.
    + by rewrite <-Hperm.
  - intros method url rt Hunset. cbn [registerAll register]. split.
    + destruct (Handle_returns r method url None Hunset) as (r1 & -> & Hstill & _).
      destruct (Handle_returns r1 method url (Some rt) Hstill) as (r2 & -> & _). eauto.
    + destruct (Handle_returns r method url (Some rt) Hunset) as (r1 & -> & Hset & _).
      destruct (Handle_panics r1 method url None) as [msg ->]; eauto.
Qed.

Lemma nodeAt_app sr keys keys' :
  nodeAt sr (keys ++ keys') =
  match nodeAt sr keys with Some n => nodeAt n keys' | None => None end.
Proof.
  revert sr. induction keys as [|key keys IH]; intros sr; [done|].
  simpl. by destruct (children sr !! key).
Qed.

(** X14: registrations never take anything away: a node that is in the
    trie is still there after any registrations that return, with the
    handlers of the slots that were set and with at least the children it
    had. *)
Theorem registrations_keep r regs r' method url n :
  registerAll r regs = Done r' →
  subrouterAt r method url = Some n →
  ∃ n', subrouterAt r' method url = Some n' ∧
    slotsKept n n' ∧
    ∀ key, is_Some (children n !! key) → is_Some (children n' !! key).
Proof.
  intros Hregs Hn. apply registerAll_kept in Hregs.
  unfold subrouterAt in *.
  destruct (Router_children r !! ToLower method) as [sr|] eqn:Hsr; [|done].
  destruct (Hregs _ _ Hsr) as (sr' & -> & Htrie).
  destruct (Htrie _ _ Hn) as (n' & Hn' & Hslots).
  exists n'. split_and!; [done..|].
  intros key [child Hchild].
  destruct (Htrie (segments (Split url) ++ [key]) child) as (child' & Hchild' & _).
  { rewrite nodeAt_app, Hn. simpl. by rewrite Hchild. }
  rewrite nodeAt_app, Hn' in Hchild'. simpl in Hchild'.
  destruct (children n' !! key); [by eexists|done].
Qed.

End configuration.

(** * The theorems at work on concrete routers *)

Section examples.
Import Demo.

Lemma Done_result (o : outcome Router) : returned o = true → o = Done (result o).
Proof. by destruct o. Defined.

Lemma Some_default {A} (o : option A) (d : A) : found o = true → o = Some (default d o).
Proof. by destruct o. Defined.

Ltac returns := apply Done_result; vm_compute; reflexivity.

Lemma makeRoute_inj name name' : makeRoute name = makeRoute name' → name = name'.
Proof.
  intros Heq. apply (f_equal (λ rt : @Route lib, snd (rt [] ("", "") []))) in Heq.
  simpl in Heq. congruence.
Qed.

(** The claim C1 without its proviso fails on the router of [TestArgRoutes]:
    "/foo" puts the value "foo" at the wildcard of "/*", yet the walk goes
    down the child under "foo" that "/foo/*" made, and the answer is the
    default route with no argument.  It fails also with nothing else
    registered, for the value "*". *)
Lemma wildcard_route_literal_clash :
  (Handle NewRouter "GET" "/*" (Some (makeRoute "2")) = Done starFirst ∧
   registerAll starFirst
     [DoHandle "GET" "/" (Some (makeRoute "1")); DoHandle "GET" "/*/*" (Some (makeRoute "3"));
      DoHandle "GET" "/foo/*" (Some (makeRoute "4")); DoHandle "GET" "/*/foo" (Some (makeRoute "5"));
      DoSetDefault "GET" "/" (Some (makeRoute "6"))] = Done starThenRest ∧
   substitute (Split "/*") ["foo"] = Some (Split "/foo") ∧
   Forall (λ value, value ≠ "") ["foo"] ∧
   findRoute starThenRest "GET" (Split "/foo") = (makeRoute "6", nullErrorHandler, []) ∧
   ¬ (fst (fst (findRoute starThenRest "GET" (Split "/foo"))) = makeRoute "2" ∧
      snd (findRoute starThenRest "GET" (Split "/foo")) = ["foo"])) ∧
  (Handle NewRouter "GET" "/*" (Some (makeRoute "2")) = Done starFirst ∧
   registerAll starFirst [] = Done starFirst ∧
   substitute (Split "/*") ["*"] = Some (Split "/*") ∧
   Forall (λ value, value ≠ "") ["*"] ∧
   findRoute starFirst "GET" (Split "/*") = (makeRoute "2", nullErrorHandler, []) ∧
   ¬ (fst (fst (findRoute starFirst "GET" (Split "/*"))) = makeRoute "2" ∧
      snd (findRoute starFirst "GET" (Split "/*")) = ["*"])).
Proof.
  assert (findRoute starThenRest "GET" (Split "/foo") =
          (makeRoute "6", nullErrorHandler, [])) as Hfoo by (vm_compute; reflexivity).
  assert (findRoute starFirst "GET" (Split "/*") =
          (makeRoute "2", nullErrorHandler, [])) as Hstar by (vm_compute; reflexivity).
  split; split_and!.
  - returns.
  - returns.
  - vm_compute. reflexivity.
  - by repeat constructor.
  - exact Hfoo.
  - rewrite Hfoo. cbn [fst snd]. intros [Hrt _]. by apply makeRoute_inj in Hrt.
  - returns.
  - reflexivity.
  - vm_compute. reflexivity.
  - by repeat constructor.
  - exact Hstar.
  - rewrite Hstar. cbn [fst snd]. intros [_ Hargs]. discriminate Hargs.
Qed.

Lemma wildcard_route_found_witness :
  fst (fst (findRoute withWildcardsAndMore "GET" (Split "/a/foo/d"))) = makeRoute "7" ∧
  snd (findRoute withWildcardsAndMore "GET" (Split "/a/foo/d")) = ["a"; "d"].
Proof.
  apply (wildcard_route_found (built defaultRoutes) "GET" "/*/foo/*" (makeRoute "7")
    withWildcards [DoHandle "GET" "/x/foo/y" (Some (makeRoute "8"))] withWildcardsAndMore
    ["a"; "d"] (Split "/a/foo/d")).
  - returns.
  - returns.
  - vm_compute. reflexivity.
  - by repeat constructor.
  - vm_compute. repeat split; reflexivity.
Defined.

Lemma Handle_findRoute_witness :
  fst (fst (findRoute withBazDefault "get" (Split "/foo/baz"))) = makeRoute "5" ∧
  snd (findRoute withBazDefault "get" (Split "/foo/baz")) = [].
Proof.
  apply (Handle_findRoute (built defaultRoutes) "get" "/foo/baz" (makeRoute "5") withBaz
    [DoSetDefault "GET" "/foo/baz" (Some (makeRoute "6"))] withBazDefault).
  - returns.
  - returns.
  - reflexivity.
Defined.

Lemma default_routes_scenario_witness :
  ∃ r, registerAll NewRouter defaultRoutes = Done r ∧
    findRoute r "GET" (Split "/") = (makeRoute "1", nullErrorHandler, []) ∧
    findRoute r "GET" (Split "/foo") = (makeRoute "1", nullErrorHandler, []) ∧
    findRoute r "GET" (Split "/foo/") = (makeRoute "2", nullErrorHandler, []) ∧
    findRoute r "GET" (Split "/baz") = (makeRoute "1", nullErrorHandler, []) ∧
    findRoute r "GET" (Split "/bar") = (makeRoute "3", nullErrorHandler, []) ∧
    findRoute r "GET" (Split "/foo/bar") = (makeRoute "4", nullErrorHandler, []) ∧
    findRoute r "GET" (Split "/foo/baz") = (makeRoute "2", nullErrorHandler, []).
Proof.
  apply (default_routes_scenario "GET" (makeRoute "1") (makeRoute "2") (makeRoute "3")
    (makeRoute "4") defaultRoutes).
  reflexivity.
Defined.

(** A route that fails, under an error handler set at the root: the two
    calls [ServeHTTP] makes and what they write. *)
Example ServeHTTP_failing_route :
  ServeHTTP
    (built [DoSetErrorHandler "GET" "/" (Some (makeErrorHandler "E"));
            DoHandle "GET" "/api/*" (Some (failingRoute "boom"))])
    ("GET", "/api/7") ([], []) =
  (tt, (["E"; "boom"],
        [RouteCall (failingRoute "boom") ("GET", "/api/7") ["7"];
         ErrorHandlerCall (makeErrorHandler "E") ("GET", "/api/7") "boom"])).
Proof. vm_compute. reflexivity. Qed.

Lemma wildcard_routes_scenario_witness :
  ∃ r, registerAll NewRouter argRoutes = Done r ∧
    findRoute r "GET" (Split "/foo") = (makeRoute "6", nullErrorHandler, []) ∧
    findRoute r "GET" (Split "/bar") = (makeRoute "2", nullErrorHandler, ["bar"]) ∧
    findRoute r "GET" (Split "/foo/bar") = (makeRoute "4", nullErrorHandler, ["bar"]) ∧
    findRoute r "GET" (Split "/bar/foo") = (makeRoute "5", nullErrorHandler, ["bar"]) ∧
    findRoute r "GET" (Split "/bar/bar") = (makeRoute "3", nullErrorHandler, ["bar"; "bar"]).
Proof.
  apply (wildcard_routes_scenario "GET" (makeRoute "1") (makeRoute "2") (makeRoute "3")
    (makeRoute "4") (makeRoute "5") (makeRoute "6") argRoutes).
  reflexivity.
Defined.

Lemma findRoute_dead_end_witness :
  findRoute (built defaultRoutes) "GET" ([""; "foo"] ++ "baz" :: ["qux"]) =
  (makeRoute "2", nullErrorHandler, []).
Proof.
  destruct (findRoute_dead_end (built defaultRoutes) "GET" defaultRoot
    [""; "foo"] "baz" ["qux"] deadEnd) as (Hfind & _).
  - apply Some_default. vm_compute. reflexivity.
  - apply Some_default. vm_compute. reflexivity.
  - done.
  - vm_compute. reflexivity.
  - vm_compute. reflexivity.
  - rewrite Hfind. vm_compute. reflexivity.
Defined.

Lemma findRoute_unknown_method_witness :
  findRoute (built defaultRoutes) "POST" (Split "/foo") = (nullRoute, nullErrorHandler, []).
Proof. apply findRoute_unknown_method. vm_compute. reflexivity. Defined.



Lemma registration_ignores_empty_segments_witness :
  segments (Split "/foo") = segments (Split "/foo/") ∧
  ∃ msg, SetDefault fooDefaultAndRoute "GET" "/foo/" (Some (makeRoute "3")) = Panic msg.
Proof.
  split; [reflexivity|].
  destruct (registration_ignores_empty_segments NewRouter "GET" "/foo" "/foo/")
    as ((_ & _ & _ & Hagain & _) & _); [reflexivity|].
  apply (Hagain (makeRoute "1") fooDefault [DoHandle "GET" "/foo" (Some (makeRoute "2"))]
    fooDefaultAndRoute).
  - returns.
  - returns.
Defined.

(** The claim C10 as it stands fails in a router that has a route for
    "/foo": right after [Handle] of "/*", the request "/foo" goes down the
    child under "foo" and gets the route of "/foo" with no argument. *)
Lemma wildcard_after_literal :
  Handle NewRouter "GET" "/foo" (Some (makeRoute "1")) = Done fooFirst ∧
  Handle fooFirst "GET" "/*" (Some (makeRoute "2")) = Done starAfterFoo ∧
  "foo" ≠ "" ∧ "foo" ≠ "*" ∧
  findRoute starAfterFoo "GET" (Split "/*") = (makeRoute "2", nullErrorHandler, []) ∧
  findRoute starAfterFoo "GET" (Split "/foo") = (makeRoute "1", nullErrorHandler, []) ∧
  ¬ (fst (fst (findRoute starAfterFoo "GET" (Split "/foo"))) = makeRoute "2" ∧
     snd (findRoute starAfterFoo "GET" (Split "/foo")) = ["foo"]).
Proof.
  assert (findRoute starAfterFoo "GET" (Split "/foo") =
          (makeRoute "1", nullErrorHandler, [])) as Hfoo by (vm_compute; reflexivity).
  split_and!.
  - returns.
  - returns.
  - discriminate.
  - discriminate.
  - vm_compute. reflexivity.
  - exact Hfoo.
  - rewrite Hfoo. cbn [fst snd]. intros [_ Hargs]. discriminate Hargs.
Qed.

Lemma wildcard_key_is_literal_witness :
  (∃ r1, Handle NewRouter "GET" "/*" (Some (makeRoute "2")) = Done r1 ∧
     findRoute r1 "GET" (Split "/*") = (makeRoute "2", nullErrorHandler, []) ∧
     findRoute r1 "GET" (Split "/bar") = (makeRoute "2", nullErrorHandler, ["bar"])) ∧
  (fst (fst (findRoute starAfterFoo "GET" (Split "/*"))) = makeRoute "2" ∧
   snd (findRoute starAfterFoo "GET" (Split "/*")) = []) ∧
  (fst (fst (findRoute starAfterFoo "GET" (Split "/bar"))) = makeRoute "2" ∧
   snd (findRoute starAfterFoo "GET" (Split "/bar")) = ["bar"]).
Proof.
  destruct (wildcard_key_is_literal "GET" (makeRoute "2"))
    as ((r1 & Hhandle & Hstar & _ & Hother & _) & Hany & _).
  destruct (Hany fooFirst starAfterFoo [] starAfterFoo ltac:(returns) eq_refl)
    as (Hstar' & Hfree & _).
  split; [|split].
  - exists r1. split_and!; [done..|]. by apply (Hother "bar").
  - exact Hstar'.
  - apply (Hfree "bar" starAfterFooRoot).
    + discriminate.
    + apply Some_default. vm_compute. reflexivity.
    + vm_compute. reflexivity.
    + reflexivity.
Defined.

Lemma found_is_Some {A} (o : option A) : found o = true → is_Some o.
Proof. destruct o; [by eexists|done]. Defined.

Lemma registration_frame_witness :
  routeAt bazAdded "GET" "/bar" = routeAt (built defaultRoutes) "GET" "/bar" ∧
  defaultRouteAt bazAdded "GET" "/bar" = defaultRouteAt (built defaultRoutes) "GET" "/bar" ∧
  errorHandlerAt bazAdded "GET" "/bar" = errorHandlerAt (built defaultRoutes) "GET" "/bar".
Proof.
  apply (registration_frame (built defaultRoutes)
    (DoHandle "get" "/foo/baz" (Some (makeRoute "5"))) bazAdded "GET" "/bar").
  - returns.
  - vm_compute. discriminate.
Defined.

Lemma configuration_accepted_witness :
  (∃ r', registerAll NewRouter defaultRoutes = Done r') ∧
  (∃ r', registerAll NewRouter
           [DoHandle "GET" "/bar" None; DoHandle "GET" "/bar" (Some (makeRoute "3"))] =
         Done r').
Proof.
  split.
  - apply (proj2 (proj2 (proj2 (proj2 (configuration_accepted NewRouter defaultRoutes))
      ltac:(repeat constructor; by eexists)))).
    vm_compute.
    repeat (apply NoDup_cons; split;
      [rewrite ?not_elem_of_cons; split_and?; try discriminate; apply not_elem_of_nil|]).
    apply NoDup_nil_2.
  - apply (proj2 (proj1 (proj2 (configuration_accepted NewRouter
      [DoHandle "GET" "/bar" None; DoHandle "GET" "/bar" (Some (makeRoute "3"))])))).
    cbn [noneAfterHandler givesHandler]. split_and!; [|intros _; apply not_elem_of_nil|done].
    intros [rt Hnil]. discriminate Hnil.
Defined.

Lemma configuration_round_trip_witness :
  routeAt (built defaultRoutes) "get" "//foo/bar/" = Some (makeRoute "4").
Proof.
  apply (proj1 (configuration_round_trip defaultRoutes (built defaultRoutes)
    "get" "//foo/bar/" ltac:(returns))).
  exists "GET", "/foo/bar". split_and!.
  - unfold defaultRoutes. do 3 apply list_elem_of_further. apply list_elem_of_here.
  - reflexivity.
  - reflexivity.
Defined.

Lemma findRoute_returns_registered_witness :
  (fst (fst (findRoute (built defaultRoutes) "GET" (Split "/foo/x"))) = nullRoute ∨
   ∃ m u, ToLower m = ToLower "GET" ∧
     (DoHandle m u
        (Some (fst (fst (findRoute (built defaultRoutes) "GET" (Split "/foo/x")))))
        ∈ defaultRoutes ∨
      DoSetDefault m u
        (Some (fst (fst (findRoute (built defaultRoutes) "GET" (Split "/foo/x")))))
        ∈ defaultRoutes)) ∧
  (snd (fst (findRoute (built defaultRoutes) "GET" (Split "/foo/x"))) = nullErrorHandler ∨
   ∃ m u, ToLower m = ToLower "GET" ∧
     DoSetErrorHandler m u
       (Some (snd (fst (findRoute (built defaultRoutes) "GET" (Split "/foo/x")))))
       ∈ defaultRoutes).
Proof.
  apply (findRoute_returns_registered defaultRoutes (built defaultRoutes) "GET"
    (Split "/foo/x")).
  returns.
Defined.

Lemma findRoute_match_sound_witness :
  ∃ m u, DoHandle m u (Some (makeRoute "5")) ∈ argRoutes ∧ ToLower m = ToLower "GET" ∧
         substitute (segments (Split u)) (walk_args argWalk) =
           Some (segments (Split "/bar/foo")).
Proof.
  apply (findRoute_match_sound argRoutes (built argRoutes) "GET" argRoot
    (Split "/bar/foo") argWalk (makeRoute "5")).
  - returns.
  - apply Some_default. vm_compute. reflexivity.
  - apply Some_default. vm_compute. reflexivity.
  - assert (Split "/bar/foo" = [""; "bar"; "foo"]) as -> by reflexivity.
    rewrite !not_elem_of_cons. split_and!; try discriminate.
    apply not_elem_of_nil.
  - vm_compute. reflexivity.
Defined.

Lemma other_methods_untouched_witness :
  Router_children withPost !! ToLower "GET" =
    Router_children (built defaultRoutes) !! ToLower "GET" ∧
  findRoute withPost "GET" (Split "/foo/bar") =
    findRoute (built defaultRoutes) "GET" (Split "/foo/bar").
Proof.
  apply (other_methods_untouched (built defaultRoutes)
    [DoHandle "POST" "/foo" (Some (makeRoute "7"))] withPost "GET" (Split "/foo/bar")).
  - returns.
  - repeat constructor. vm_compute. discriminate.
Defined.

Lemma ServeHTTP_builtin_error_handler_witness :
  fst (snd (ServeHTTP (built failing) ("GET", "/fail") ([], []))) =
    Error [] "Internal Server Error" 500 ∧
  errorHandlerCalls (callsOf (built failing) ("GET", "/fail") []) = 1.
Proof.
  apply (ServeHTTP_builtin_error_handler failing (built failing) ("GET", "/fail")
    [] "boom" []).
  - returns.
  - repeat constructor. discriminate.
  - vm_compute. reflexivity.
Defined.

Lemma errorHandler_one_beyond_witness :
  snd (fst (findRoute fooErrorsAndMore "GET" (Split "/foo" ++ ["bar"]))) =
  makeErrorHandler "E".
Proof.
  apply (errorHandler_one_beyond (built defaultRoutes) "GET" "/foo" (makeErrorHandler "E")
    fooErrors [DoHandle "GET" "/foo/*" (Some (makeRoute "8"))] fooErrorsAndMore "bar").
  - returns.
  - returns.
Defined.

Lemma defaultRoute_one_beyond_witness :
  ∃ n, subrouterAt fooDefaultAndBar "GET" "/foo" = Some n ∧
    (route n = None →
     fst (fst (findRoute fooDefaultAndBar "GET" (Split "/foo" ++ [""]))) = makeRoute "1") ∧
    (∀ x, x ≠ "" → children n !! x = None → children n !! "*" = None →
       fst (fst (findRoute fooDefaultAndBar "GET" (Split "/foo" ++ [x]))) = makeRoute "1") ∧
    (∀ x tmp, x ≠ "" →
       children n !! x = Some tmp ∨
         (children n !! x = None ∧ children n !! "*" = Some tmp) →
       route tmp = None →
       fst (fst (findRoute fooDefaultAndBar "GET" (Split "/foo" ++ [x]))) = makeRoute "1").
Proof.
  apply (defaultRoute_one_beyond NewRouter "GET" "/foo" (makeRoute "1") fooDefault
    [DoHandle "GET" "/foo/bar" (Some (makeRoute "2"))] fooDefaultAndBar).
  - returns.
  - returns.
Defined.

Lemma prefix_handler_not_for_exact_path_witness :
  findRoute barDefault "GET" (Split "/bar") =
  findRoute (built defaultRoutes) "GET" (Split "/bar").
Proof.
  apply (proj1 (prefix_handler_not_for_exact_path (built defaultRoutes) "GET" "/bar"
    ltac:(apply found_is_Some; vm_compute; reflexivity)
    ltac:(vm_compute; discriminate)) (Some (makeRoute "9")) barDefault).
  returns.
Defined.

Lemma registration_order_immaterial_witness :
  (registerAll NewRouter defaultRoutes = Done (built defaultRoutes) ↔
   registerAll NewRouter (reverse defaultRoutes) = Done (built defaultRoutes)) ∧
  (∃ r', registerAll NewRouter
           [DoHandle "GET" "/bar" None; DoHandle "GET" "/bar" (Some (makeRoute "3"))] =
         Done r') ∧
  (∃ msg, registerAll NewRouter
            [DoHandle "GET" "/bar" (Some (makeRoute "3")); DoHandle "GET" "/bar" None] =
          Panic msg).
Proof.
  destruct (registration_order_immaterial NewRouter defaultRoutes (reverse defaultRoutes))
    as [Horder Hnil].
  split.
  - apply Horder.
    + symmetry. apply reverse_Permutation.
    + repeat constructor; by eexists.
  - apply (Hnil "GET" "/bar" (makeRoute "3")). vm_compute. reflexivity.
Defined.

Lemma registrations_keep_witness :
  ∃ n', subrouterAt withBazDefault "GET" "/foo" = Some n' ∧
    slotsKept fooNode n' ∧
    ∀ key, is_Some (children fooNode !! key) → is_Some (children n' !! key).
Proof.
  apply (registrations_keep withBaz [DoSetDefault "GET" "/foo/baz" (Some (makeRoute "6"))]
    withBazDefault "GET" "/foo" fooNode).
  - returns.
  - apply Some_default. vm_compute. reflexivity.
Defined.

End examples.
